(** * Benchmarking classical and quantum-kernel SVMs: a verified model

    A shallow embedding of [benchmarking_classical_quanutm.ipynb].  The
    script's own control flow (the loops of [eval_classical] and
    [eval_qsvm], the feature-map catalogue, the report block) is written out
    as Rocq functions in a monad that logs events and may raise; the
    scikit-learn and Qiskit calls it makes are the fields of the class [Libs].
    Floating-point metrics are exact rationals; the one irrational quantity,
    [np.std], is a real.  The last part models the file as a sequence of
    top-level statements, to follow which names are bound when it runs. *)

From Stdlib Require Import List ZArith QArith Qround Lqa Lia Reals R_sqrt.
From Stdlib Require Import Sorted Permutation.
From stdpp Require Import gmap strings sorting.
Import ListNotations.

#[local] Unset Default Proof Using.
#[local] Set Warnings "-register-all".
#[local] Open Scope Q_scope.

(** ** Python values *)

Definition label := Z.
Definition vector := list Q.
Definition matrix := list (list Q).
Definition indices := list nat.

(** Exceptions the script can stop with. *)
Inductive exn : Type :=
| IndexError
| ValueError
| NotANumber
| NameError (name : string)
| LibraryError (what : string).

Inductive result (A : Type) : Type :=
| Ok (a : A)
| Raise (e : exn).
Arguments Ok {A} a.
Arguments Raise {A} e.

Definition is_Ok {A} (r : result A) : bool :=
  match r with Ok _ => true | Raise _ => false end.

(** ** Circuits, estimators, result tables *)

Inductive gate : Type :=
| Hgate (q : nat)
| Pgate (q : nat) (feature : nat)
| CXgate (ctrl tgt : nat).

Record QuantumCircuit := { num_qubits : nat; data : list gate }.

Inductive estimator : Type :=
| LogisticRegression (max_iter : nat)
| SVC (kernel : string).

Definition param_grid := list (string * list Q).

(** One row of the classical table: keys split, model, acc, f1, time. *)
Record crow := { c_split : nat; c_model : string; c_acc : Q; c_f1 : Q; c_time : Q }.

(** One row of the quantum table: keys map, acc_mean, acc_std, f1_mean. *)
Record qrow := { q_map : string; q_acc_mean : Q; q_acc_std : R; q_f1_mean : Q }.

Inductive printed : Type :=
| PStr (s : string)
| PGroupAgg (df : list crow) (by_key : string) (cols aggs : list string)
| PFrameQ (df : list qrow).

Inductive sheet_data : Type :=
| SheetC (df : list crow)
| SheetQ (df : list qrow).

(** ** Observable events of a run *)

Inductive event : Type :=
| EvKernel (fmap : QuantumCircuit) (x : matrix) (y : option matrix)
| EvFit (K : matrix) (y : list label) (C : option Q)
| EvPredict (K : matrix)
| EvPrint (p : printed)
| EvSave (path : string) (sheets : list (string * sheet_data)).

(** ** The monad of the script: a log of events and a value or an exception *)

Definition M (A : Type) : Type := (list event * result A)%type.

Definition ret {A} (a : A) : M A := ([], Ok a).

Definition bind {A B} (m : M A) (f : A → M B) : M B :=
  match m with
  | (t, Ok a) => let '(t', r) := f a in (t ++ t', r)
  | (t, Raise e) => (t, Raise e)
  end.

Definition emit (e : event) : M unit := ([e], Ok tt).
Definition lift {A} (r : result A) : M A := ([], r).

#[global] Instance M_ret : MRet M := @ret.
#[global] Instance M_bind : MBind M := λ A B f m, bind m f.

Definition trace {A} (m : M A) : list event := fst m.
Definition value {A} (m : M A) : result A := snd m.

(** [for x in xs: acc = body(acc, x)] *)
Fixpoint foldM {A S} (body : S → A → M S) (xs : list A) (s : S) : M S :=
  match xs with
  | [] => ret s
  | x :: xs' => s' ← body s x; foldM body xs' s'
  end.

(** ** NumPy indexing and arithmetic *)

(** [a[idx]] with an index array: IndexError when an index is out of range. *)
Fixpoint index_rows {A} (a : list A) (idx : indices) : result (list A) :=
  match idx with
  | [] => Ok []
  | i :: idx' =>
      match nth_error a i with
      | None => Raise IndexError
      | Some x =>
          match index_rows a idx' with
          | Ok xs => Ok (x :: xs)
          | Raise e => Raise e
          end
      end
  end.

(** [a[:, idx]]: the same selection inside every row. *)
Fixpoint index_cols (a : matrix) (idx : indices) : result matrix :=
  match a with
  | [] => Ok []
  | row :: a' =>
      match index_rows row idx with
      | Raise e => Raise e
      | Ok r =>
          match index_cols a' idx with
          | Ok rs => Ok (r :: rs)
          | Raise e => Raise e
          end
      end
  end.

(** [a[rows][:, cols]] *)
Definition block (a : matrix) (rows cols : indices) : result matrix :=
  match index_rows a rows with
  | Ok r => index_cols r cols
  | Raise e => Raise e
  end.

(** [X * data_scale] *)
Definition scale_matrix (X : matrix) (data_scale : Q) : matrix :=
  List.map (List.map (λ x, x * data_scale)) X.

Definition Qsum (xs : list Q) : Q := fold_right Qplus 0 xs.

Definition Qlen (xs : list Q) : Q := inject_Z (Z.of_nat (length xs)).

(** [np.mean], computed exactly.  NumPy averages in float64, so its result
    can differ from this one in the last place; what is proved about the
    choice of C below is therefore stated for any averaging function
    ([cv_mean_with]).  On an empty list NumPy gives NaN; the model stops there
    instead.  No list the script averages is empty once a splitter has
    yielded its [n_splits] pairs. *)
Definition np_mean (xs : list Q) : result Q :=
  match xs with
  | [] => Raise NotANumber
  | _ => Ok (Qsum xs / Qlen xs)
  end.

(** Population variance, the square of [np.std]. *)
Definition np_var (xs : list Q) : result Q :=
  match np_mean xs with
  | Ok mu => np_mean (List.map (λ x, (x - mu) * (x - mu)) xs)
  | Raise e => Raise e
  end.

Definition np_std (xs : list Q) : result R :=
  match np_var xs with
  | Ok v => Ok (sqrt (Q2R v))
  | Raise e => Raise e
  end.

(** ** scikit-learn metrics *)

Definition count_where {A B} (p : A → B → bool) (xs : list A) (ys : list B) : nat :=
  length (List.filter (λ xy, p (fst xy) (snd xy)) (combine xs ys)).

Definition Qratio (k n : nat) : Q := inject_Z (Z.of_nat k) / inject_Z (Z.of_nat n).

(** [accuracy_score(y_true, y_pred)]: the fraction of equal entries.
    ValueError on inconsistent lengths; on empty input (NaN in NumPy, never
    produced by the splitters) the model stops. *)
Definition accuracy_score (y_true y_pred : list label) : result Q :=
  if negb (length y_true =? length y_pred)%nat then Raise ValueError
  else if (length y_true =? 0)%nat then Raise NotANumber
  else Ok (Qratio (count_where Z.eqb y_true y_pred) (length y_true)).

(** The labels that occur in the targets or in the predictions. *)
Definition present_labels (y_true y_pred : list label) : list label :=
  nodup Z.eq_dec (y_true ++ y_pred).

(** [f1_score(y_true, y_pred)], binary average with positive label 1:
    2tp / (2tp + fp + fn), and 0 when the denominator is 0.  ValueError on
    inconsistent lengths, when more than two labels occur (a multiclass
    target), and when two labels occur and neither is 1. *)
Definition f1_score (y_true y_pred : list label) : result Q :=
  if negb (length y_true =? length y_pred)%nat then Raise ValueError
  else
    let present := present_labels y_true y_pred in
    if (2 <? length present)%nat then Raise ValueError
    else if negb (existsb (Z.eqb 1) present) && (2 <=? length present)%nat
    then Raise ValueError
    else
      let tp := count_where (λ t p, (t =? 1)%Z && (p =? 1)%Z) y_true y_pred in
      let fp := count_where (λ t p, negb (t =? 1)%Z && (p =? 1)%Z) y_true y_pred in
      let fn := count_where (λ t p, (t =? 1)%Z && negb (p =? 1)%Z) y_true y_pred in
      if (2 * tp + fp + fn =? 0)%nat then Ok 0
      else Ok (Qratio (2 * tp) (2 * tp + fp + fn)).

(** ** Dictionaries in insertion order *)

(** [d[k] = v]: a new key goes last, an old key keeps its place. *)
Fixpoint dict_set {V} (d : list (string * V)) (k : string) (v : V) : list (string * V) :=
  match d with
  | [] => [(k, v)]
  | (k', v') :: d' =>
      if String.eqb k' k then (k', v) :: d' else (k', v') :: dict_set d' k v
  end.

Definition keys {V} (d : list (string * V)) : list string := List.map fst d.

(** [enumerate(xs, start)] *)
Definition enumerate {A} (start : nat) (xs : list A) : list (nat * A) :=
  combine (seq start (length xs)) xs.

(** ** Constants of the script *)

Definition SEED : Z := 12345.
Definition FEATURE_DIM : nat := 4.

(** ** Quantum feature maps *)

(** Qiskit's [ZFeatureMap(n, reps)]: per repetition a Hadamard on every
    qubit, then a phase gate on qubit i whose angle is twice feature i. *)
Definition ZFeatureMap (n reps : nat) : QuantumCircuit :=
  {| num_qubits := n;
     data := concat (repeat (List.map Hgate (seq 0 n) ++ List.map (λ i, Pgate i i) (seq 0 n)) reps) |}.

(** Circuits are mutable objects: a store of them, addressed by position. *)
Abbreviation ref := nat.
Abbreviation store := (list QuantumCircuit).

Definition new_circuit (c : QuantumCircuit) (h : store) : ref * store :=
  (length h, h ++ [c]).

Definition append_gate (g : gate) (c : QuantumCircuit) : QuantumCircuit :=
  {| num_qubits := num_qubits c; data := data c ++ [g] |}.

(** [circ.cx(i, j)] on the object at [circ]. *)
Definition cx (circ : ref) (i j : nat) (h : store) : store :=
  alter (append_gate (CXgate i j)) circ h.

Definition deref (h : store) (r : ref) : QuantumCircuit :=
  default {| num_qubits := 0; data := [] |} (h !! r).

(** [add_linear_entanglement(circ)]: mutates the circuit and returns it. *)
Definition add_linear_entanglement (circ : ref) (h : store) : ref * store :=
  let n := num_qubits (deref h circ) in
  (circ, fold_left (λ h i, cx circ i (i + 1) h) (seq 0 (n - 1)) h).

(** [build_maps()], with the store it leaves behind. *)
Definition build_maps_store : list (string * (ref * Q)) * store :=
  let h : store := [] in
  let maps : list (string * (ref * Q)) := [] in
  let '(c1, h) := new_circuit (ZFeatureMap FEATURE_DIM 1) h in
  let maps := dict_set maps "ZF-reps1" (c1, 1) in
  let '(c2, h) := new_circuit (ZFeatureMap FEATURE_DIM 2) h in
  let maps := dict_set maps "ZF-reps2" (c2, 1) in
  let '(c3, h) := new_circuit (ZFeatureMap FEATURE_DIM 1) h in
  let maps := dict_set maps "ZF-alpha05" (c3, 1 # 2) in
  let '(circ_lin, h) := new_circuit (ZFeatureMap FEATURE_DIM 1) h in
  let '(c4, h) := add_linear_entanglement circ_lin h in
  let maps := dict_set maps "ZF-LinEnt" (c4, 1) in
  let '(circ_lin_a, h) := new_circuit (ZFeatureMap FEATURE_DIM 1) h in
  let '(c5, h) := add_linear_entanglement circ_lin_a h in
  let maps := dict_set maps "ZF-alpha05-LinEnt" (c5, 1 # 2) in
  (maps, h).

(** The catalogue as [eval_qsvm] reads it: every reference looked up. *)
Definition build_maps : list (string * (QuantumCircuit * Q)) :=
  let '(maps, h) := build_maps_store in
  List.map (λ '(name, (r, data_scale)), (name, (deref h r, data_scale))) maps.

(** The linear chain on [n] qubits. *)
Definition linear_chain (n : nat) : list gate :=
  List.map (λ i, CXgate i (i + 1)) (seq 0 (n - 1)).

(** A circuit followed by the chain on its own qubits. *)
Definition entangled (c : QuantumCircuit) : QuantumCircuit :=
  {| num_qubits := num_qubits c; data := data c ++ linear_chain (num_qubits c) |}.

(** ** Classical baselines *)

(** [np.logspace(-3, 1, 5)] *)
Definition gammas : list Q := [1 # 1000; 1 # 100; 1 # 10; 1; 10].

Definition classical_grids : list (string * (estimator * param_grid)) :=
  let d := [] in
  let d := dict_set d "LogReg" (LogisticRegression 2000, [("C", [1 # 10; 1; 10])]) in
  let d := dict_set d "SVM-linear" (SVC "linear", [("C", [1 # 10; 1; 10])]) in
  let d := dict_set d "SVM-poly"
             (SVC "poly", [("degree", [3; 4; 5]); ("C", [1 # 10; 1; 10]); ("coef0", [0; 1])]) in
  let d := dict_set d "SVM-rbf" (SVC "rbf", [("C", [1 # 10; 1; 10]); ("gamma", gammas)]) in
  d.

(** ** The libraries the script calls *)

Definition split_pairs := list (indices * indices).

Class Libs := {
  (** a fitted [GridSearchCV] and a fitted precomputed-kernel [SVC] *)
  fitted : Type;
  svc_model : Type;
  (** [StandardScaler().fit_transform(X)] *)
  StandardScaler_fit_transform : matrix → result matrix;
  (** [MinMaxScaler((0, np.pi)).fit_transform(X)] *)
  MinMaxScaler_fit_transform : matrix → result matrix;
  (** [StratifiedShuffleSplit(n_splits, test_size, random_state).split(X, y)] *)
  StratifiedShuffleSplit_split : nat → Q → Z → matrix → list label → result split_pairs;
  (** [StratifiedKFold(n_splits, shuffle, random_state).split(X, y)] *)
  StratifiedKFold_split : nat → bool → Z → matrix → list label → result split_pairs;
  (** [GridSearchCV(clf, grid, cv, scoring='accuracy', n_jobs=-1).fit(X, y)] *)
  GridSearchCV_fit : estimator → param_grid → nat → matrix → list label → result fitted;
  (** [gs.best_estimator_.predict(X)] *)
  best_estimator_predict : fitted → matrix → result (list label);
  (** the seconds [time.time()] measures around the fit of a split and model *)
  elapsed : nat → string → Q;
  (** [SVC(kernel='precomputed', C=C).fit(K, y)] and [svc.predict(K)] *)
  svc_fit : matrix → list label → option Q → result svc_model;
  svc_predict : svc_model → matrix → result (list label);
  (** [FidelityQuantumKernel(feature_map, fidelity).evaluate(x, y)] *)
  qk_evaluate : QuantumCircuit → matrix → option matrix → result matrix;
}.

Section Pipeline.
Context `{L : Libs}.

Definition SVC_fit (K : matrix) (y : list label) (C : option Q) : M svc_model :=
  emit (EvFit K y C);; lift (svc_fit K y C).

Definition SVC_predict (svc : svc_model) (K : matrix) : M (list label) :=
  emit (EvPredict K);; lift (svc_predict svc K).

Definition qk_eval (fmap : QuantumCircuit) (x : matrix) (y : option matrix) : M matrix :=
  emit (EvKernel fmap x y);; lift (qk_evaluate fmap x y).

(** *** eval_classical *)

(** Lines 55-58: search, fit, predict and score one model on one split. *)
Definition score_model (split : nat) (Xtr Xts : matrix) (ytr yts : list label)
    (entry : string * (estimator * param_grid)) : M crow :=
  let '(m, (clf, grid)) := entry in
  gs ← lift (GridSearchCV_fit clf grid 3 Xtr ytr);
  let dur := elapsed split m in
  pred ← lift (best_estimator_predict gs Xts);
  a ← lift (accuracy_score yts pred);
  f ← lift (f1_score yts pred);
  mret {| c_split := split; c_model := m; c_acc := a; c_f1 := f; c_time := dur |}.

Definition eval_classical_model (split : nat) (Xtr Xts : matrix) (ytr yts : list label)
    (rows : list crow) (entry : string * (estimator * param_grid)) : M (list crow) :=
  row ← score_model split Xtr Xts ytr yts entry;
  mret (rows ++ [row]).

Definition eval_classical_split (Xs : matrix) (y : list label)
    (rows : list crow) (it : nat * (indices * indices)) : M (list crow) :=
  let '(split, (tr, ts)) := it in
  Xtr ← lift (index_rows Xs tr);
  Xts ← lift (index_rows Xs ts);
  ytr ← lift (index_rows y tr);
  yts ← lift (index_rows y ts);
  foldM (eval_classical_model split Xtr Xts ytr yts) classical_grids rows.

Definition eval_classical (X : matrix) (y : list label) : M (list crow) :=
  Xs ← lift (StandardScaler_fit_transform X);
  splits ← lift (StratifiedShuffleSplit_split 3 (3 # 10) SEED Xs y);
  foldM (eval_classical_split Xs y) (enumerate 1 splits) [].

(** *** eval_qsvm *)

Definition candidates : list Q := [1 # 10; 1; 10].

(** One fold of the inner cross-validation (lines 106-107). *)
Definition cv_fold (Ktr : matrix) (ytr : list label) (C : Q)
    (acc_fold : list Q) (fold : indices * indices) : M (list Q) :=
  let '(tri, vali) := fold in
  Ktt ← lift (block Ktr tri tri);
  ytt ← lift (index_rows ytr tri);
  svc ← SVC_fit Ktt ytt (Some C);
  yv ← lift (index_rows ytr vali);
  Kvt ← lift (block Ktr vali tri);
  pred ← SVC_predict svc Kvt;
  a ← lift (accuracy_score yv pred);
  mret (acc_fold ++ [a]).

(** The mean fold accuracy of one candidate (lines 103-108). *)
Definition cv_mean (Ktr : matrix) (ytr : list label) (C : Q) : M Q :=
  folds ← lift (StratifiedKFold_split 10 true SEED Ktr ytr);
  acc_fold ← foldM (cv_fold Ktr ytr C) folds [];
  lift (np_mean acc_fold).

(** [m] is the mean fold accuracy of candidate [C], all of its folds having run. *)
Definition mean_acc (Ktr : matrix) (ytr : list label) (C m : Q) : Prop :=
  value (cv_mean Ktr ytr C) = Ok m.

(** The body of the loop over C, on the pair (bestC, maxAcc). *)
Definition select_step (Ktr : matrix) (ytr : list label)
    (st : option Q * Q) (C : Q) : M (option Q * Q) :=
  let '(bestC, maxAcc) := st in
  m ← cv_mean Ktr ytr C;
  mret (if Qlt_le_dec maxAcc m then (Some C, m) else (bestC, maxAcc)).

Definition select_C (Ktr : matrix) (ytr : list label) : M (option Q * Q) :=
  foldM (select_step Ktr ytr) candidates (None, 0).




(** The events of one fold of the inner cross-validation: a fit on
    [Ktr[tri][:,tri]] with [ytr[tri]], then a prediction on
    [Ktr[vali][:,tri]]. *)
Definition fold_events (Ktr : matrix) (ytr : list label) (C : Q)
    (fold : indices * indices) : list event :=
  let '(tri, vali) := fold in
  match block Ktr tri tri, index_rows ytr tri, block Ktr vali tri with
  | Ok Ktt, Ok ytt, Ok Kvt => [EvFit Ktt ytt (Some C); EvPredict Kvt]
  | _, _, _ => []
  end.

Definition fold_sliceable (Ktr : matrix) (ytr : list label)
    (fold : indices * indices) : bool :=
  let '(tri, vali) := fold in
  is_Ok (block Ktr tri tri) && is_Ok (index_rows ytr tri) && is_Ok (block Ktr vali tri).

(** The events of the whole selection: every candidate, in order, over
    every fold, in order. *)
Definition cv_events (Ktr : matrix) (ytr : list label) (folds : split_pairs) : list event :=
  flat_map (λ C, flat_map (fold_events Ktr ytr C) folds) candidates.

(** Lines 101-114: selection, final fit, test metrics. *)
Definition fit_and_score (Ktr Kts : matrix) (ytr yts : list label) : M (Q * Q) :=
  '(bestC, _) ← select_C Ktr ytr;
  svc ← SVC_fit Ktr ytr bestC;
  pred ← SVC_predict svc Kts;
  a ← lift (accuracy_score yts pred);
  f ← lift (f1_score yts pred);
  mret (a, f).

(** Lines 94-113: the two test metrics of one split. *)
Definition score_split (fmap : QuantumCircuit) (data_scale : Q) (Xs : matrix) (y : list label)
    (sp : indices * indices) : M (Q * Q) :=
  let '(tr, ts) := sp in
  Xtr_raw ← lift (index_rows Xs tr);
  Xts_raw ← lift (index_rows Xs ts);
  ytr ← lift (index_rows y tr);
  yts ← lift (index_rows y ts);
  let Xtr := scale_matrix Xtr_raw data_scale in
  let Xts := scale_matrix Xts_raw data_scale in
  Ktr ← qk_eval fmap Xtr None;
  Kts ← qk_eval fmap Xts (Some Xtr);
  fit_and_score Ktr Kts ytr yts.

(** Line 114: both metrics are appended to their lists. *)
Definition eval_split (fmap : QuantumCircuit) (data_scale : Q) (Xs : matrix) (y : list label)
    (st : list Q * list Q) (sp : indices * indices) : M (list Q * list Q) :=
  let '(accs, f1s) := st in
  '(a, f) ← score_split fmap data_scale Xs y sp;
  mret (accs ++ [a], f1s ++ [f]).

Definition eval_map (Xs : matrix) (y : list label)
    (out : list qrow) (entry : string * (QuantumCircuit * Q)) : M (list qrow) :=
  let '(name, (fmap, data_scale)) := entry in
  splits ← lift (StratifiedShuffleSplit_split 10 (3 # 10) SEED Xs y);
  '(accs, f1s) ← foldM (eval_split fmap data_scale Xs y) splits ([], []);
  am ← lift (np_mean accs);
  sd ← lift (np_std accs);
  fm ← lift (np_mean f1s);
  mret (out ++ [{| q_map := name; q_acc_mean := am; q_acc_std := sd; q_f1_mean := fm |}]).

Definition eval_qsvm (X : matrix) (y : list label) : M (list qrow) :=
  Xs ← lift (MinMaxScaler_fit_transform X);
  foldM (eval_map Xs y) build_maps [].

(** What a fit or a prediction of one split may be given: the whole train
    or test kernel matrix (the final model), or a block of the train kernel
    matrix cut out by the indices of a fold. *)
Definition sliced (Ktr Kts : matrix) (ytr : list label) (folds : split_pairs)
    (e : event) : Prop :=
  match e with
  | EvFit K yy C =>
      (K = Ktr ∧ yy = ytr) ∨
      ∃ tri vali, In (tri, vali) folds ∧ block Ktr tri tri = Ok K ∧ index_rows ytr tri = Ok yy
  | EvPredict K =>
      K = Kts ∨ ∃ tri vali, In (tri, vali) folds ∧ block Ktr vali tri = Ok K
  | _ => False
  end.

(** *** What the rows of the two tables are *)

(** A classical row of a given split and model, with its metrics in range. *)
Definition crow_ok (split : nat) (entry : string * (estimator * param_grid)) (row : crow) : Prop :=
  c_split row = split ∧ c_model row = fst entry
  ∧ 0 <= c_acc row <= 1 ∧ 0 <= c_f1 row <= 1.

(** What a summary row is, given the splits it aggregates. *)
Definition qrow_ok (Xs : matrix) (y : list label) (splits : split_pairs)
    (entry : string * (QuantumCircuit * Q)) (row : qrow) : Prop :=
  q_map row = fst entry
  ∧ ∃ scores,
      Forall2 (λ sp s, value (score_split (fst (snd entry)) (snd (snd entry)) Xs y sp) = Ok s)
        splits scores
      ∧ np_mean (List.map fst scores) = Ok (q_acc_mean row)
      ∧ np_std (List.map fst scores) = Ok (q_acc_std row)
      ∧ np_mean (List.map snd scores) = Ok (q_f1_mean row).

Definition qrow_bounds (row : qrow) : Prop :=
  0 <= q_acc_mean row <= 1 ∧ (0 <= q_acc_std row)%R ∧ 0 <= q_f1_mean row <= 1.

(** *** When every fit of a run succeeds *)

Definition classical_split_ok (Xs : matrix) (y : list label)
    (it : nat * (indices * indices)) : bool :=
  let '(split, (tr, ts)) := it in
  match index_rows Xs tr, index_rows Xs ts, index_rows y tr, index_rows y ts with
  | Ok Xtr, Ok Xts, Ok ytr, Ok yts =>
      forallb (λ entry, is_Ok (value (score_model split Xtr Xts ytr yts entry))) classical_grids
  | _, _, _, _ => false
  end.

Definition quantum_map_ok (Xs : matrix) (y : list label) (splits : split_pairs)
    (entry : string * (QuantumCircuit * Q)) : bool :=
  let '(_, (fmap, data_scale)) := entry in
  forallb (λ sp, is_Ok (value (score_split fmap data_scale Xs y sp))) splits.

End Pipeline.

(** ** Report *)

(** A stable ascending sort on the [acc_mean] column. *)
Fixpoint insert_by_acc (r : qrow) (l : list qrow) : list qrow :=
  match l with
  | [] => [r]
  | r' :: l' =>
      if Qle_bool (q_acc_mean r) (q_acc_mean r') then r :: r' :: l'
      else r' :: insert_by_acc r l'
  end.

Definition argsort_acc (l : list qrow) : list qrow := fold_right insert_by_acc [] l.

(** [df.sort_values('acc_mean', ascending=False)]: a new frame; pandas
    reverses, sorts ascending and reverses back.  [df] itself is unchanged. *)
Definition sort_values_acc_mean_desc (df : list qrow) : list qrow :=
  reverse (argsort_acc (reverse df)).

Definition workbook := list (string * sheet_data).

(** [df.to_excel(w, sheet_name=..., index=False)] *)
Definition to_excel (d : sheet_data) (w : workbook) (sheet_name : string) : workbook :=
  w ++ [(sheet_name, d)].

Definition xlsx_path : string := "Resultados_IrisLineal_QBoost.xlsx".

(** The [with pd.ExcelWriter(...) as w:] block (lines 128-130): the
    workbook is saved when the block is left. *)
Definition excel_block (df_c : list crow) (df_q : list qrow) : M unit :=
  let w : workbook := [] in
  let w := to_excel (SheetC df_c) w "Clasicos" in
  let w := to_excel (SheetQ df_q) w "Cuanticos" in
  emit (EvSave xlsx_path w).

(** Lines 126-131: what happens to the quantum table once it is computed.
    The tables are those the evaluators return, which have rows: on a frame
    built from no rows pandas finds no [acc_mean] column to sort by.  The
    writer is taken to succeed; a failure to write the file is not modelled. *)
Definition report (df_c : list crow) (df_q : list qrow) : M unit :=
  emit (EvPrint (PFrameQ (sort_values_acc_mean_desc df_q)));;
  excel_block df_c df_q;;
  emit (EvPrint (PStr "
 Resultados guardados en Resultados_IrisLineal_QBoost.xlsx")).

Definition is_save (e : event) : bool :=
  match e with EvSave _ _ => true | _ => false end.

Definition is_kernel (e : event) : bool :=
  match e with EvKernel _ _ _ => true | _ => false end.

Definition saved_sheets (t : list event) : list workbook :=
  flat_map (λ e, match e with EvSave _ w => [w] | _ => [] end) t.

Definition printed_frames (t : list event) : list (list qrow) :=
  flat_map (λ e, match e with EvPrint (PFrameQ df) => [df] | _ => [] end) t.

Definition sheet_names (w : workbook) : list string := List.map fst w.

(** The rows of the sheet called [name], when it holds a quantum table. *)
Definition quantum_sheet (w : workbook) (name : string) : option (list qrow) :=
  match List.find (λ s, String.eqb (fst s) name) w with
  | Some (_, SheetQ df) => Some df
  | _ => None
  end.

Definition asc_by_acc (a b : qrow) : Prop := q_acc_mean a <= q_acc_mean b.
Definition desc_by_acc : relation qrow := flip asc_by_acc.

Section Main.
Context `{L : Libs}.

(** The [__main__] block, given the two names it reads. *)
Definition main (X_raw : matrix) (y_raw : list label) : M unit :=
  emit (EvPrint (PStr "⏳ Evaluando clásicos..."));;
  df_c ← eval_classical X_raw y_raw;
  emit (EvPrint (PGroupAgg df_c "model" ["acc"; "f1"] ["mean"; "std"]));;
  emit (EvPrint (PStr "
⏳ Evaluando Kernles Cuanticos con feature‑maps mejorados..."));;
  df_q ← eval_qsvm X_raw y_raw;
  report df_c df_q.

End Main.

(** ** The script as a sequence of top-level statements

    Which names each top-level statement binds and reads, in Python's
    evaluation order.  A call of a function defined in the file enters it and
    reads the global names of its body. *)

Module Script.

Inductive expr : Type :=
| Name (x : string)
| Lit
| Attr (e : expr) (a : string)
| Call (f : expr) (args : list expr)
| Op (args : list expr).

Inductive stmt : Type :=
| Import (binds : list string)
| Assign (x : string) (e : expr)
| Expr (e : expr)
| Def (f : string) (def_time : list string) (body_globals : list string)
| If (c : expr) (body : list stmt)
| With (e : expr) (x : string) (body : list stmt).

Inductive sevent : Type :=
| Enter (f : string)
| Extern (f : string).

Record state := {
  globals : gset string;
  funs : gmap string (list string);
  log : list sevent }.

Definition builtins : gset string :=
  {[ "print"; "range"; "enumerate"; "__name__" ]}.

Definition bound (st : state) (x : string) : bool :=
  bool_decide (x ∈ globals st ∪ builtins).

(** Reading names one after another: the first unbound one raises. *)
Fixpoint read_all (st : state) (xs : list string) : result unit :=
  match xs with
  | [] => Ok tt
  | x :: xs' => if bound st x then read_all st xs' else Raise (NameError x)
  end.

Definition logging (st : state) (e : sevent) : state :=
  {| globals := globals st; funs := funs st; log := log st ++ [e] |}.

Definition binding (st : state) (x : string) : state :=
  {| globals := {[ x ]} ∪ globals st; funs := funs st; log := log st |}.

Fixpoint eval (e : expr) (st : state) : state * result unit :=
  let fix eval_list (es : list expr) (st : state) : state * result unit :=
    match es with
    | [] => (st, Ok tt)
    | e :: es' =>
        match eval e st with
        | (st', Ok _) => eval_list es' st'
        | r => r
        end
    end in
  match e with
  | Name x => (st, read_all st [x])
  | Lit => (st, Ok tt)
  | Attr e' _ => eval e' st
  | Op args => eval_list args st
  | Call f args =>
      match eval f st with
      | (st1, Ok _) =>
          match eval_list args st1 with
          | (st2, Ok _) =>
              match f with
              | Name g =>
                  match funs st2 !! g with
                  | Some body_globals =>
                      let st3 := logging st2 (Enter g) in (st3, read_all st3 body_globals)
                  | None => (logging st2 (Extern g), Ok tt)
                  end
              | _ => (st2, Ok tt)
              end
          | r => r
          end
      | r => r
      end
  end.

Fixpoint exec (s : stmt) (st : state) : state * result unit :=
  let fix exec_list (ss : list stmt) (st : state) : state * result unit :=
    match ss with
    | [] => (st, Ok tt)
    | s :: ss' =>
        match exec s st with
        | (st', Ok _) => exec_list ss' st'
        | r => r
        end
    end in
  match s with
  | Import binds => (fold_left binding binds st, Ok tt)
  | Assign x e =>
      match eval e st with
      | (st', Ok _) => (binding st' x, Ok tt)
      | r => r
      end
  | Expr e => eval e st
  | Def f def_time body_globals =>
      match read_all st def_time with
      | Ok _ =>
          ({| globals := {[ f ]} ∪ globals st;
              funs := <[ f := body_globals ]> (funs st);
              log := log st |}, Ok tt)
      | Raise e => (st, Raise e)
      end
  | If c body =>
      match eval c st with
      | (st', Ok _) => exec_list body st'
      | r => r
      end
  | With e x body =>
      match eval e st with
      | (st', Ok _) => exec_list body (binding st' x)
      | r => r
      end
  end.

Fixpoint exec_all (ss : list stmt) (st : state) : state * result unit :=
  match ss with
  | [] => (st, Ok tt)
  | s :: ss' =>
      match exec s st with
      | (st', Ok _) => exec_all ss' st'
      | r => r
      end
  end.

Definition initial : state := {| globals := ∅; funs := ∅; log := [] |}.

(** Names bound at module level by a statement. *)
Fixpoint binds_of (s : stmt) : list string :=
  match s with
  | Import binds => binds
  | Assign x _ => [x]
  | Expr _ => []
  | Def f _ _ => [f]
  | If _ body => flat_map binds_of body
  | With _ x body => x :: flat_map binds_of body
  end.

(** Functions called by name somewhere in an expression. *)
Fixpoint callees (e : expr) : list string :=
  match e with
  | Name _ | Lit => []
  | Attr e' _ => callees e'
  | Op args => flat_map callees args
  | Call f args =>
      match f with Name g => [g] | _ => callees f end ++ flat_map callees args
  end.

Fixpoint calls_of (s : stmt) : list string :=
  match s with
  | Import _ | Def _ _ _ => []
  | Assign _ e | Expr e => callees e
  | If c body => callees c ++ flat_map calls_of body
  | With e _ body => callees e ++ flat_map calls_of body
  end.

(** Every name a statement reads, in expressions and in function bodies. *)
Fixpoint names_in (e : expr) : list string :=
  match e with
  | Name x => [x]
  | Lit => []
  | Attr e' _ => names_in e'
  | Op args => flat_map names_in args
  | Call f args => names_in f ++ flat_map names_in args
  end.

Fixpoint reads_of (s : stmt) : list string :=
  match s with
  | Import _ => []
  | Assign _ e | Expr e => names_in e
  | Def _ def_time body => def_time ++ body
  | If c body => names_in c ++ flat_map reads_of body
  | With e _ body => names_in e ++ flat_map reads_of body
  end.

Definition body_globals_of (f : string) (s : stmt) : list string :=
  match s with
  | Def g _ body => if String.eqb f g then body else []
  | _ => []
  end.

(** Lines 1-13 *)
Definition imports : list stmt :=
  [ Import ["warnings"; "time"; "np"; "pd"; "sns"; "plt"];
    Import ["datasets"];
    Import ["StandardScaler"; "MinMaxScaler"];
    Import ["accuracy_score"; "f1_score"];
    Import ["StratifiedShuffleSplit"; "GridSearchCV"; "StratifiedKFold"];
    Import ["LogisticRegression"];
    Import ["SVC"];
    Import ["QuantumCircuit"];
    Import ["ZFeatureMap"];
    Import ["StatevectorSampler"];
    Import ["ComputeUncompute"];
    Import ["FidelityQuantumKernel"] ].

(** Lines 15-116 *)
Definition definitions : list stmt :=
  [ Expr (Call (Attr (Name "warnings") "filterwarnings") [Lit]);
    Assign "SEED" Lit;
    Expr (Call (Attr (Attr (Name "np") "random") "seed") [Name "SEED"]);
    Assign "sampler" (Call (Name "StatevectorSampler") []);
    Assign "fidelity" (Call (Name "ComputeUncompute") [Name "sampler"]);
    Def "load_dataset" [] ["ad_hoc_data"; "TRAIN_SIZE"; "TEST_SIZE"; "FEATURE_DIM"];
    Def "classical_grids" [] ["np"; "LogisticRegression"; "SVC"];
    Def "eval_classical" []
      ["StandardScaler"; "StratifiedShuffleSplit"; "SEED"; "enumerate"; "classical_grids";
       "GridSearchCV"; "time"; "accuracy_score"; "f1_score"; "pd"];
    Assign "FEATURE_DIM" Lit;
    Def "add_linear_entanglement" ["QuantumCircuit"] ["range"];
    Def "build_maps" [] ["ZFeatureMap"; "FEATURE_DIM"; "add_linear_entanglement"];
    Def "eval_qsvm" []
      ["MinMaxScaler"; "np"; "StratifiedShuffleSplit"; "SEED"; "build_maps"; "enumerate";
       "FidelityQuantumKernel"; "fidelity"; "StratifiedKFold"; "SVC"; "accuracy_score";
       "f1_score"; "pd"] ].

(** Lines 119-131 *)
Definition main_block : stmt :=
  If (Op [Name "__name__"; Lit])
    [ Expr (Call (Name "print") [Lit]);
      Assign "df_c" (Call (Name "eval_classical") [Name "X_raw"; Name "y_raw"]);
      Expr (Call (Name "print")
              [Call (Attr (Op [Call (Attr (Name "df_c") "groupby") [Lit]; Lit]) "agg") [Lit]]);
      Expr (Call (Name "print") [Lit]);
      Assign "df_q" (Call (Name "eval_qsvm") [Name "X_raw"; Name "y_raw"]);
      Expr (Call (Name "print") [Call (Attr (Name "df_q") "sort_values") [Lit; Lit]]);
      With (Call (Attr (Name "pd") "ExcelWriter") [Lit]) "w"
        [ Expr (Call (Attr (Name "df_c") "to_excel") [Name "w"; Lit; Lit]);
          Expr (Call (Attr (Name "df_q") "to_excel") [Name "w"; Lit; Lit]) ];
      Expr (Call (Name "print") [Lit]) ].

Definition script : list stmt := imports ++ definitions ++ [main_block].

Definition run : state * result unit := exec_all script initial.

End Script.

(** ** A small executable instance of the libraries

    Two classes that sit on two distinct points, a kernel that is 1 on equal
    points and 0 otherwise, and a classifier that takes the sign of the
    kernel-weighted vote of its training labels. *)

Module Toy.

Definition point (i : nat) : vector :=
  if Nat.even i then [1; 0; 1; 0] else [0; 1; 0; 1].

Definition label_of (i : nat) : label := if Nat.even i then 1%Z else (-1)%Z.

Definition X (n : nat) : matrix := List.map point (seq 0 n).
Definition y (n : nat) : list label := List.map label_of (seq 0 n).

Definition same_point (a b : vector) : bool :=
  (length a =? length b)%nat && forallb (λ p, Qeq_bool (fst p) (snd p)) (combine a b).

Definition k (a b : vector) : Q := if same_point a b then 1 else 0.

Definition gram (a b : matrix) : matrix := List.map (λ u, List.map (k u) b) a.

(** The opposite kernel: 1 on the diagonal and between different points. *)
Definition anti_gram (a : matrix) : matrix :=
  List.map (λ iu, List.map (λ jv,
    if (fst iu =? fst jv)%nat then 1 else 1 - k (snd iu) (snd jv))
    (enumerate 0 a)) (enumerate 0 a).

Definition vote (labels : list label) (row : list Q) : label :=
  let s := Qsum (List.map (λ p, fst p * inject_Z (snd p)) (combine row labels)) in
  if Qle_bool 0 s then 1%Z else (-1)%Z.

(** Split number [r] of [n] samples: the [n_test] positions from [r] on
    (cyclically) are held out. *)
Definition rotation (n n_test r : nat) : indices * indices :=
  let order := List.map (λ i, (i + r) mod n)%nat (seq 0 n) in
  (skipn n_test order, firstn n_test order).

Definition shuffle_split (n_splits : nat) (test_size : Q) (n : nat) : split_pairs :=
  let n_test := Z.to_nat (Qceiling (test_size * inject_Z (Z.of_nat n))) in
  List.map (rotation n n_test) (seq 0 n_splits).

(** Fold [r] of [n_splits]: every position congruent to [r] is validated. *)
Definition kfold (n_splits n : nat) : split_pairs :=
  List.map (λ r,
    (List.filter (λ i, negb (i mod n_splits =? r)%nat) (seq 0 n),
     List.filter (λ i, (i mod n_splits =? r)%nat) (seq 0 n))) (seq 0 n_splits).

(** A quantum table whose rows are not in descending order of accuracy. *)
Definition frame : list qrow :=
  [ {| q_map := "ZF-reps1"; q_acc_mean := 1 # 2; q_acc_std := 0%R; q_f1_mean := 1 # 2 |};
    {| q_map := "ZF-reps2"; q_acc_mean := 9 # 10; q_acc_std := 0%R; q_f1_mean := 9 # 10 |} ].

#[export] Instance libs : Libs := {|
  fitted := matrix * list label;
  svc_model := list label;
  StandardScaler_fit_transform := Ok;
  MinMaxScaler_fit_transform := Ok;
  StratifiedShuffleSplit_split := λ n_splits test_size _ _ y,
    Ok (shuffle_split n_splits test_size (length y));
  StratifiedKFold_split := λ n_splits _ _ _ y, Ok (kfold n_splits (length y));
  GridSearchCV_fit := λ _ _ _ Xtr ytr, Ok (Xtr, ytr);
  best_estimator_predict := λ gs Xts, Ok (List.map (vote (snd gs)) (gram Xts (fst gs)));
  elapsed := λ _ _, 1 # 100;
  svc_fit := λ _ y C,
    match C with
    | Some _ => Ok y
    | None => Raise (LibraryError "InvalidParameterError")
    end;
  svc_predict := λ labels K, Ok (List.map (vote labels) K);
  qk_evaluate := λ _ x y, Ok (gram x (default x y));
|}.

End Toy.

(** ** The dataset loader

    [load_dataset] calls a generator and reads two size constants that the
    file neither imports nor defines; they are parameters here. *)

Section Dataset.
Variable ad_hoc_data :
  nat → nat → nat → Q → bool → bool → result (matrix * list label * matrix * list label).
Variables TRAIN_SIZE TEST_SIZE : nat.

(** [y[y == 0] = -1] *)
Definition remap_zero (y : list label) : list label :=
  List.map (λ l, if (l =? 0)%Z then (-1)%Z else l) y.

Definition load_dataset : result (matrix * list label * matrix * list label) :=
  match ad_hoc_data TRAIN_SIZE TEST_SIZE FEATURE_DIM (3 # 10) false false with
  | Ok (X_tr, y_tr, X_ts, y_ts) => Ok (X_tr, remap_zero y_tr, X_ts, remap_zero y_ts)
  | Raise e => Raise e
  end.

End Dataset.

(** ** Counting the events of a run *)

Definition is_fit (e : event) : bool :=
  match e with EvFit _ _ _ => true | _ => false end.

Definition is_predict (e : event) : bool :=
  match e with EvPredict _ => true | _ => false end.

Definition count (p : event → bool) (t : list event) : nat := length (List.filter p t).

(** The matrix of a kernel function between two batches of points. *)
Definition kernel_matrix (k : vector → vector → Q) (a b : matrix) : matrix :=
  List.map (λ u, List.map (k u) b) a.

(** ** States of the script *)

(** The state once lines 1-116 have run. *)
Definition after_definitions : Script.state :=
  fst (Script.exec_all (Script.imports ++ Script.definitions) Script.initial).

(** The functions the file defines, with the global names their bodies read. *)
Definition defined_functions : list (string * list string) :=
  flat_map (λ s, match s with Script.Def f _ body => [(f, body)] | _ => [] end)
    Script.script.

(** A start state in which the two names the entry point reads are bound. *)
Definition with_data : Script.state :=
  Script.binding (Script.binding Script.initial "X_raw") "y_raw".
(** ** Monad laws used below *)

Lemma value_bind_Ok {A B} (m : M A) (f : A → M B) a :
  value m = Ok a → value (m ≫= f) = value (f a).
Proof.
  destruct m as [t [a'|e]]; simpl; intros Hm; [|discriminate].
  injection Hm as ->. unfold mbind, M_bind, bind. by destruct (f a).
Qed.

Lemma trace_bind_Ok {A B} (m : M A) (f : A → M B) a :
  value m = Ok a → trace (m ≫= f) = trace m ++ trace (f a).
Proof.
  destruct m as [t [a'|e]]; simpl; intros Hm; [|discriminate].
  injection Hm as ->. unfold mbind, M_bind, bind. by destruct (f a).
Qed.

Lemma value_bind_Raise {A B} (m : M A) (f : A → M B) e :
  value m = Raise e → value (m ≫= f) = Raise e.
Proof. destruct m as [t [a'|e']]; simpl; intros Hm; [discriminate|]. by injection Hm as ->. Qed.

Lemma trace_bind_Raise {A B} (m : M A) (f : A → M B) e :
  value m = Raise e → trace (m ≫= f) = trace m.
Proof. destruct m as [t [a'|e']]; simpl; intros Hm; [discriminate|done]. Qed.

Lemma value_bind_inv {A B} (m : M A) (f : A → M B) b :
  value (m ≫= f) = Ok b → ∃ a, value m = Ok a ∧ value (f a) = Ok b.
Proof.
  destruct m as [t [a|e]]; [|discriminate].
  intros Hb. exists a. split; [done|]. by erewrite <- value_bind_Ok.
Qed.

Lemma value_lift {A} (r : result A) : value (lift r) = r.
Proof. done. Qed.

Lemma trace_lift {A} (r : result A) : trace (lift r) = [].
Proof. done. Qed.

Lemma value_ret {A} (a : A) : value (mret a : M A) = Ok a.
Proof. done. Qed.

(** A property of every logged event passes through sequencing. *)
Lemma Forall_trace_bind {A B} (Pe : event → Prop) (m : M A) (f : A → M B) :
  Forall Pe (trace m) → (∀ a, value m = Ok a → Forall Pe (trace (f a))) →
  Forall Pe (trace (m ≫= f)).
Proof.
  intros Hm Hf. destruct (value m) as [a|e] eqn:Hv.
  - rewrite (trace_bind_Ok _ _ _ Hv). apply Forall_app; split; [done|by apply Hf].
  - by rewrite (trace_bind_Raise _ _ _ Hv).
Qed.

Lemma Forall_trace_foldM {A S} (Pe : event → Prop) (body : S → A → M S) xs :
  (∀ s x, In x xs → Forall Pe (trace (body s x))) →
  ∀ s, Forall Pe (trace (foldM body xs s)).
Proof.
  induction xs as [|x xs IH]; intros Hb s; simpl; [constructor|].
  apply Forall_trace_bind; [apply Hb; by left|].
  intros s' _. apply IH. intros s'' x' Hin. apply Hb. by right.
Qed.

(** A loop that runs to its end has run each of its steps. *)
Lemma foldM_value_inv {A S} (body : S → A → M S) xs s s' :
  value (foldM body xs s) = Ok s' →
  ∀ x, In x xs → ∃ s1 s2, value (body s1 x) = Ok s2.
Proof.
  revert s. induction xs as [|x0 xs IH]; intros s Hv x Hin; [done|].
  cbn [foldM] in Hv. apply value_bind_inv in Hv as (s1 & Hb & Hrest).
  destruct Hin as [<-|Hin]; [by exists s, s1|by eapply IH].
Qed.

(** ** The feature-map catalogue *)

Lemma append_gates_alter (circ : ref) (gs : list nat) (mk : nat → gate) (h : store) :
  fold_left (λ h i, alter (append_gate (mk i)) circ h) gs h =
  alter (λ c, {| num_qubits := num_qubits c; data := data c ++ List.map mk gs |}) circ h.
Proof.
  revert h. induction gs as [|g gs IH]; intros h; cbn [fold_left List.map].
  - rewrite <- (list_alter_id (λ c, c) h circ) at 1 by done.
    apply list_alter_ext; [|done]. intros [n d] _; simpl. by rewrite app_nil_r.
  - rewrite IH, list_alter_alter_eq. apply list_alter_ext; [|done].
    intros [n d] _; simpl. by rewrite <- app_assoc.
Qed.

(** C8: [build_maps] yields exactly five entries in the order ZF-reps1,
    ZF-reps2, ZF-alpha05, ZF-LinEnt, ZF-alpha05-LinEnt, all on 4 features,
    with (reps, scale) = (1, 1), (2, 1), (1, 1/2), (1, 1), (1, 1/2), the last
    two carrying the linear chain; and [add_linear_entanglement] changes
    only the circuit it is given, by appending CX(i, i+1) for i = 0..n-2
    once, after the gates that are already there. *)
Theorem build_maps_catalogue :
  build_maps =
    [ ("ZF-reps1", (ZFeatureMap 4 1, 1));
      ("ZF-reps2", (ZFeatureMap 4 2, 1));
      ("ZF-alpha05", (ZFeatureMap 4 1, 1 # 2));
      ("ZF-LinEnt", (entangled (ZFeatureMap 4 1), 1));
      ("ZF-alpha05-LinEnt", (entangled (ZFeatureMap 4 1), 1 # 2)) ]
  ∧ (∀ n, linear_chain (S n) = List.map (λ i, CXgate i (S i)) (seq 0 n))
  ∧ (∀ (circ : ref) (h : store),
       add_linear_entanglement circ h =
       (circ, alter (λ c, {| num_qubits := num_qubits c;
                             data := data c ++ linear_chain (num_qubits (deref h circ)) |})
                circ h)).
Proof.
  split; [reflexivity|]. split.
  - intros n. unfold linear_chain. simpl. rewrite Nat.sub_0_r.
    apply map_ext. intros i. f_equal. lia.
  - intros circ h. unfold add_linear_entanglement, cx, linear_chain.
    by rewrite (append_gates_alter circ _ (λ i, CXgate i (i + 1))).
Qed.

(** ** The script run as the entry point *)

(** C10: run from the top, the script stops with NameError on X_raw at
    line 121, after the first print and before any function of the file is
    entered; no statement binds X_raw, y_raw, ad_hoc_data, TRAIN_SIZE or
    TEST_SIZE; load_dataset reads the last three, is called nowhere, and its
    name is read nowhere in the file. *)
Theorem script_stops_on_X_raw :
  snd Script.run = Raise (NameError "X_raw")
  ∧ Script.log (fst Script.run) =
      [Script.Extern "StatevectorSampler"; Script.Extern "ComputeUncompute";
       Script.Extern "print"]
  ∧ Forall (λ x, ¬ In x (flat_map Script.binds_of Script.script) ∧ x ∉ Script.builtins)
      ["X_raw"; "y_raw"; "ad_hoc_data"; "TRAIN_SIZE"; "TEST_SIZE"]
  ∧ ¬ In "load_dataset" (flat_map Script.calls_of Script.script)
  ∧ ¬ In "load_dataset" (flat_map Script.reads_of Script.script)
  ∧ Forall (λ x, In x (flat_map (Script.body_globals_of "load_dataset") Script.script))
      ["ad_hoc_data"; "TRAIN_SIZE"; "TEST_SIZE"].
Proof.
  split; [by vm_compute|]. split; [by vm_compute|]. split; [|split; [|split]].
  - repeat constructor; try (vm_compute; intuition congruence);
      apply (bool_decide_unpack _); by vm_compute.
  - vm_compute. intuition congruence.
  - vm_compute. intuition congruence.
  - repeat constructor; vm_compute; tauto.
Qed.

(** ** The report *)

Lemma insert_by_acc_perm r l : insert_by_acc r l ≡ₚ r :: l.
Proof.
  induction l as [|r' l IH]; simpl; [done|].
  destruct (Qle_bool _ _); [done|]. rewrite IH. apply perm_swap.
Qed.

Lemma argsort_acc_perm l : argsort_acc l ≡ₚ l.
Proof.
  induction l as [|r l IH]; simpl; [done|].
  by rewrite insert_by_acc_perm, IH.
Qed.

Lemma insert_by_acc_sorted r l :
  Sorted asc_by_acc l → Sorted asc_by_acc (insert_by_acc r l).
Proof.
  induction 1 as [|r' l Hs IH Hhd]; simpl; [by repeat constructor|].
  destruct (Qle_bool (q_acc_mean r) (q_acc_mean r')) eqn:Hle.
  - apply Qle_bool_iff in Hle. by repeat constructor.
  - assert (asc_by_acc r' r) as Hr.
    { unfold asc_by_acc. destruct (Qlt_le_dec (q_acc_mean r') (q_acc_mean r)) as [Hlt|Hge].
      - by apply Qlt_le_weak.
      - apply Qle_bool_iff in Hge. congruence. }
    constructor; [done|].
    destruct Hhd as [|r'' l Hrel]; simpl; [by constructor|].
    destruct (Qle_bool (q_acc_mean r) (q_acc_mean r'')); by constructor.
Qed.

Lemma argsort_acc_sorted l : Sorted asc_by_acc (argsort_acc l).
Proof. induction l; simpl; [constructor|by apply insert_by_acc_sorted]. Qed.

Lemma sort_values_sorted df : Sorted desc_by_acc (sort_values_acc_mean_desc df).
Proof. apply Sorted_reverse, argsort_acc_sorted. Qed.

Lemma sort_values_perm df : sort_values_acc_mean_desc df ≡ₚ df.
Proof.
  unfold sort_values_acc_mean_desc.
  by rewrite reverse_Permutation, argsort_acc_perm, reverse_Permutation.
Qed.

Lemma trace_report df_c df_q :
  trace (report df_c df_q) =
  [ EvPrint (PFrameQ (sort_values_acc_mean_desc df_q));
    EvSave xlsx_path [("Clasicos", SheetC df_c); ("Cuanticos", SheetQ df_q)];
    EvPrint (PStr "
 Resultados guardados en Resultados_IrisLineal_QBoost.xlsx") ].
Proof. reflexivity. Qed.

(** C3, as the code has it: the frame that is printed is the quantum table
    sorted by descending mean accuracy (a sorted permutation of it); the
    frame written to the quantum sheet is the table itself, in the order
    the evaluator produced its rows. *)
Theorem report_prints_sorted_writes_unsorted (df_c : list crow) (df_q : list qrow) :
  ∃ shown w,
    printed_frames (trace (report df_c df_q)) = [shown]
    ∧ Sorted desc_by_acc shown
    ∧ shown ≡ₚ df_q
    ∧ saved_sheets (trace (report df_c df_q)) = [w]
    ∧ quantum_sheet w "Cuanticos" = Some df_q.
Proof.
  exists (sort_values_acc_mean_desc df_q),
    [("Clasicos", SheetC df_c); ("Cuanticos", SheetQ df_q)].
  rewrite trace_report. split; [done|].
  split; [apply sort_values_sorted|]. split; [apply sort_values_perm|done].
Qed.

(** C3 as stated fails: on a two-row table in ascending order the sheet
    that is written keeps that order, which is not descending. *)
Lemma written_sheet_not_sorted :
  ∃ w rows,
    saved_sheets (trace (report [] Toy.frame)) = [w]
    ∧ quantum_sheet w "Cuanticos" = Some rows
    ∧ ¬ Sorted desc_by_acc rows
    ∧ printed_frames (trace (report [] Toy.frame)) ≠ [rows].
Proof.
  exists [("Clasicos", SheetC []); ("Cuanticos", SheetQ Toy.frame)], Toy.frame.
  split; [done|]. split; [done|]. split.
  - intros Hs. inversion Hs as [|? ? _ Hhd]; subst. inversion Hhd as [|? ? Hrel]; subst.
    unfold desc_by_acc, flip, asc_by_acc in Hrel. simpl in Hrel.
    apply Qle_bool_iff in Hrel. vm_compute in Hrel. discriminate.
  - rewrite trace_report. intros Heq.
    apply (f_equal (λ l, (λ d, q_map <$> d) <$> l)) in Heq. vm_compute in Heq. discriminate.
Qed.

(** The report saves one workbook, once; only the closing print follows. *)
Lemma report_saves_two_sheets (df_c : list crow) (df_q : list qrow) :
  ∃ before w,
    trace (report df_c df_q) =
      before ++ [EvSave xlsx_path w; EvPrint (PStr "
 Resultados guardados en Resultados_IrisLineal_QBoost.xlsx")]
    ∧ List.filter is_save before = []
    ∧ w = [("Clasicos", SheetC df_c); ("Cuanticos", SheetQ df_q)].
Proof.
  exists [EvPrint (PFrameQ (sort_values_acc_mean_desc df_q))],
    [("Clasicos", SheetC df_c); ("Cuanticos", SheetQ df_q)].
  by rewrite trace_report.
Qed.

(** ** Events of the library wrappers *)

Section Traces.
Context `{L : Libs}.

Lemma trace_SVC_fit K y C : trace (SVC_fit K y C) = [EvFit K y C].
Proof. reflexivity. Qed.

Lemma value_SVC_fit K y C : value (SVC_fit K y C) = svc_fit K y C.
Proof. reflexivity. Qed.

Lemma trace_SVC_predict svc K : trace (SVC_predict svc K) = [EvPredict K].
Proof. reflexivity. Qed.

Lemma value_SVC_predict svc K : value (SVC_predict svc K) = svc_predict svc K.
Proof. reflexivity. Qed.

Lemma trace_qk_eval fmap x y : trace (qk_eval fmap x y) = [EvKernel fmap x y].
Proof. reflexivity. Qed.

Lemma value_qk_eval fmap x y : value (qk_eval fmap x y) = qk_evaluate fmap x y.
Proof. reflexivity. Qed.

Lemma Forall_trace_lift {A} (Pe : event → Prop) (r : result A) : Forall Pe (trace (lift r)).
Proof. constructor. Qed.

Lemma Forall_trace_ret {A} (Pe : event → Prop) (a : A) : Forall Pe (trace (mret a : M A)).
Proof. constructor. Qed.

(** ** The inner cross-validation only re-slices the train kernel matrix *)

Lemma cv_fold_sliced Ktr Kts ytr folds C acc_fold fold :
  In fold folds → Forall (sliced Ktr Kts ytr folds) (trace (cv_fold Ktr ytr C acc_fold fold)).
Proof.
  destruct fold as [tri vali]; intros Hin. unfold cv_fold.
  apply Forall_trace_bind; [apply Forall_trace_lift|]. intros Ktt HKtt.
  apply Forall_trace_bind; [apply Forall_trace_lift|]. intros ytt Hytt.
  apply Forall_trace_bind.
  { rewrite trace_SVC_fit. constructor; [|constructor]. right. by exists tri, vali. }
  intros svc _.
  apply Forall_trace_bind; [apply Forall_trace_lift|]. intros yv _.
  apply Forall_trace_bind; [apply Forall_trace_lift|]. intros Kvt HKvt.
  apply Forall_trace_bind.
  { rewrite trace_SVC_predict. constructor; [|constructor]. right. by exists tri, vali. }
  intros pred _.
  apply Forall_trace_bind; [apply Forall_trace_lift|]. intros a _.
  apply Forall_trace_ret.
Qed.

Lemma cv_mean_sliced Ktr Kts ytr folds C :
  (∀ fs, StratifiedKFold_split 10 true SEED Ktr ytr = Ok fs → fs = folds) →
  Forall (sliced Ktr Kts ytr folds) (trace (cv_mean Ktr ytr C)).
Proof.
  intros Hfolds. unfold cv_mean.
  apply Forall_trace_bind; [apply Forall_trace_lift|]. intros fs Hfs.
  apply Hfolds in Hfs as ->.
  apply Forall_trace_bind; [|intros; apply Forall_trace_lift].
  apply Forall_trace_foldM. intros acc_fold fold Hin. by apply cv_fold_sliced.
Qed.

Lemma select_C_sliced Ktr Kts ytr folds :
  (∀ fs, StratifiedKFold_split 10 true SEED Ktr ytr = Ok fs → fs = folds) →
  Forall (sliced Ktr Kts ytr folds) (trace (select_C Ktr ytr)).
Proof.
  intros Hfolds. apply Forall_trace_foldM. intros [bestC maxAcc] C _.
  apply Forall_trace_bind; [by apply cv_mean_sliced|]. intros; apply Forall_trace_ret.
Qed.

Lemma fit_and_score_sliced Ktr Kts ytr yts folds :
  (∀ fs, StratifiedKFold_split 10 true SEED Ktr ytr = Ok fs → fs = folds) →
  Forall (sliced Ktr Kts ytr folds) (trace (fit_and_score Ktr Kts ytr yts)).
Proof.
  intros Hfolds. unfold fit_and_score.
  apply Forall_trace_bind; [by apply select_C_sliced|]. intros [bestC maxAcc] _.
  apply Forall_trace_bind.
  { rewrite trace_SVC_fit. constructor; [|constructor]. by left. }
  intros svc _. apply Forall_trace_bind.
  { rewrite trace_SVC_predict. constructor; [|constructor]. by left. }
  intros pred _.
  apply Forall_trace_bind; [apply Forall_trace_lift|]. intros a _.
  apply Forall_trace_bind; [apply Forall_trace_lift|]. intros f _.
  apply Forall_trace_ret.
Qed.

Lemma sliced_not_kernel Ktr Kts ytr folds t :
  Forall (sliced Ktr Kts ytr folds) t → List.filter is_kernel t = [].
Proof.
  induction 1 as [|e t He _ IH]; [done|].
  by destruct e; simpl in He; try done.
Qed.

(** A run of the selection that returns has asked for the folds. *)
Lemma select_C_folds Ktr ytr r :
  value (select_C Ktr ytr) = Ok r →
  ∃ folds, StratifiedKFold_split 10 true SEED Ktr ytr = Ok folds.
Proof.
  unfold select_C, candidates. cbn [foldM]. intros Hv.
  apply value_bind_inv in Hv as (st & Hstep & _).
  unfold select_step in Hstep. apply value_bind_inv in Hstep as (m & Hm & _).
  unfold cv_mean in Hm. apply value_bind_inv in Hm as (folds & Hf & _).
  by exists folds.
Qed.

(** The events of a loop that runs to its end are those of its steps. *)
Lemma trace_foldM_Ok {A S} (ev : A → list event) (body : S → A → M S) xs :
  (∀ s x s', In x xs → value (body s x) = Ok s' → trace (body s x) = ev x) →
  ∀ s s', value (foldM body xs s) = Ok s' → trace (foldM body xs s) = flat_map ev xs.
Proof.
  induction xs as [|x xs IH]; intros Hbody s s' Hv; [done|].
  cbn [foldM] in *. apply value_bind_inv in Hv as (s1 & Hb & Hrest).
  rewrite (trace_bind_Ok _ _ _ Hb), (Hbody s x s1 (or_introl eq_refl) Hb).
  by rewrite (IH (λ s0 x0 s0' Hin, Hbody s0 x0 s0' (or_intror Hin)) s1 s' Hrest).
Qed.

Lemma trace_cv_fold_Ok Ktr ytr C acc_fold fold r :
  value (cv_fold Ktr ytr C acc_fold fold) = Ok r →
  trace (cv_fold Ktr ytr C acc_fold fold) = fold_events Ktr ytr C fold
  ∧ fold_sliceable Ktr ytr fold = true.
Proof.
  destruct fold as [tri vali]. unfold cv_fold, fold_events, fold_sliceable. intros Hv.
  apply value_bind_inv in Hv as (Ktt & HKtt & Hv). rewrite (trace_bind_Ok _ _ _ HKtt).
  apply value_bind_inv in Hv as (ytt & Hytt & Hv). rewrite (trace_bind_Ok _ _ _ Hytt).
  apply value_bind_inv in Hv as (svc & Hsvc & Hv). rewrite (trace_bind_Ok _ _ _ Hsvc).
  apply value_bind_inv in Hv as (yv & Hyv & Hv). rewrite (trace_bind_Ok _ _ _ Hyv).
  apply value_bind_inv in Hv as (Kvt & HKvt & Hv). rewrite (trace_bind_Ok _ _ _ HKvt).
  apply value_bind_inv in Hv as (pred & Hpred & Hv). rewrite (trace_bind_Ok _ _ _ Hpred).
  apply value_bind_inv in Hv as (a & Ha & Hv). rewrite (trace_bind_Ok _ _ _ Ha).
  rewrite !trace_lift, trace_SVC_fit, trace_SVC_predict.
  cbn [value lift snd] in HKtt, Hytt, HKvt. by rewrite HKtt, Hytt, HKvt.
Qed.

Lemma trace_cv_mean_Ok Ktr ytr C folds m :
  StratifiedKFold_split 10 true SEED Ktr ytr = Ok folds →
  value (cv_mean Ktr ytr C) = Ok m →
  trace (cv_mean Ktr ytr C) = flat_map (fold_events Ktr ytr C) folds
  ∧ forallb (fold_sliceable Ktr ytr) folds = true
  ∧ folds ≠ [].
Proof.
  intros Hfolds. unfold cv_mean.
  rewrite (value_bind_Ok _ _ folds), (trace_bind_Ok _ _ folds) by done.
  intros Hv. apply value_bind_inv in Hv as (acc_fold & Hloop & Hm).
  rewrite (trace_bind_Ok _ _ _ Hloop), !trace_lift, app_nil_r. cbn [app].
  split; [|split].
  - eapply trace_foldM_Ok; [|done]. intros s x s' _ Hs. by eapply trace_cv_fold_Ok.
  - apply forallb_forall. intros fold Hin.
    destruct (foldM_value_inv _ _ _ _ Hloop fold Hin) as (s1 & s2 & Hstep).
    by eapply trace_cv_fold_Ok.
  - intros ->. cbn in Hloop. injection Hloop as <-. discriminate.
Qed.

Lemma trace_select_C_Ok Ktr ytr folds r :
  StratifiedKFold_split 10 true SEED Ktr ytr = Ok folds →
  value (select_C Ktr ytr) = Ok r →
  trace (select_C Ktr ytr) = cv_events Ktr ytr folds.
Proof.
  intros Hfolds Hv. unfold select_C, cv_events in *.
  eapply trace_foldM_Ok; [|done].
  intros [bestC maxAcc] C s' _ Hs. unfold select_step in *.
  apply value_bind_inv in Hs as (mC & HmC & _).
  rewrite (trace_bind_Ok _ _ _ HmC). cbn [trace mret M_ret ret fst]. rewrite app_nil_r.
  by eapply trace_cv_mean_Ok.
Qed.

(** C7: in a split that is scored, the kernel is evaluated exactly twice,
    first train against train and then test against train, before the
    selection starts, and never again.  What follows is, for each candidate
    C in order and each fold (tri, vali) in order, one fit on the block
    [Ktr[tri][:,tri]] with the labels [ytr[tri]] and one prediction on the
    block [Ktr[vali][:,tri]], every block being cut out of the one train
    kernel matrix, and then the fit of the final model on the whole [Ktr] and
    its prediction on [Kts].  There is at least one fold. *)
Theorem kernel_once_then_sliced fmap data_scale Xs y tr ts r :
  value (score_split fmap data_scale Xs y (tr, ts)) = Ok r →
  ∃ Xtr_raw Xts_raw ytr Ktr Kts folds rest bestC maxAcc,
    index_rows Xs tr = Ok Xtr_raw
    ∧ index_rows Xs ts = Ok Xts_raw
    ∧ index_rows y tr = Ok ytr
    ∧ qk_evaluate fmap (scale_matrix Xtr_raw data_scale) None = Ok Ktr
    ∧ qk_evaluate fmap (scale_matrix Xts_raw data_scale)
        (Some (scale_matrix Xtr_raw data_scale)) = Ok Kts
    ∧ StratifiedKFold_split 10 true SEED Ktr ytr = Ok folds
    ∧ trace (score_split fmap data_scale Xs y (tr, ts)) =
        EvKernel fmap (scale_matrix Xtr_raw data_scale) None
        :: EvKernel fmap (scale_matrix Xts_raw data_scale)
             (Some (scale_matrix Xtr_raw data_scale))
        :: rest
    ∧ Forall (sliced Ktr Kts ytr folds) rest
    ∧ List.filter is_kernel rest = []
    ∧ value (select_C Ktr ytr) = Ok (bestC, maxAcc)
    ∧ rest = cv_events Ktr ytr folds ++ [EvFit Ktr ytr bestC; EvPredict Kts]
    ∧ forallb (fold_sliceable Ktr ytr) folds = true
    ∧ folds ≠ [].
Proof.
  intros Hv. unfold score_split in *.
  pose proof Hv as Hv0.
  apply value_bind_inv in Hv as (Xtr_raw & HXtr & Hv).
  apply value_bind_inv in Hv as (Xts_raw & HXts & Hv).
  apply value_bind_inv in Hv as (ytr & Hytr & Hv).
  apply value_bind_inv in Hv as (yts & Hyts & Hv).
  apply value_bind_inv in Hv as (Ktr & HKtr & Hv).
  apply value_bind_inv in Hv as (Kts & HKts & Hv).
  pose proof Hv as Hfs. unfold fit_and_score in Hfs.
  apply value_bind_inv in Hfs as ([bestC maxAcc] & Hsel & Hfs).
  destruct (select_C_folds _ _ _ Hsel) as [folds Hfolds].
  assert (forallb (fold_sliceable Ktr ytr) folds = true ∧ folds ≠ []) as [Hblocks Hne].
  { pose proof Hsel as Hsel'. unfold select_C, candidates in Hsel'. cbn [foldM] in Hsel'.
    apply value_bind_inv in Hsel' as (st & Hstep & _).
    unfold select_step in Hstep. apply value_bind_inv in Hstep as (m & Hm & _).
    by destruct (trace_cv_mean_Ok _ _ _ _ _ Hfolds Hm) as (_ & ? & ?). }
  assert (trace (fit_and_score Ktr Kts ytr yts) =
          cv_events Ktr ytr folds ++ [EvFit Ktr ytr bestC; EvPredict Kts]) as Hrest.
  { unfold fit_and_score.
    rewrite (trace_bind_Ok _ _ _ Hsel), (trace_select_C_Ok _ _ _ _ Hfolds Hsel). f_equal.
    apply value_bind_inv in Hfs as (svc & Hsvc & Hfs). rewrite (trace_bind_Ok _ _ _ Hsvc).
    apply value_bind_inv in Hfs as (pred & Hpred & Hfs). rewrite (trace_bind_Ok _ _ _ Hpred).
    apply value_bind_inv in Hfs as (a & Ha & Hfs). rewrite (trace_bind_Ok _ _ _ Ha).
    apply value_bind_inv in Hfs as (f & Hf & Hfs). rewrite (trace_bind_Ok _ _ _ Hf).
    by rewrite !trace_lift, trace_SVC_fit, trace_SVC_predict. }
  exists Xtr_raw, Xts_raw, ytr, Ktr, Kts, folds, (trace (fit_and_score Ktr Kts ytr yts)),
    bestC, maxAcc.
  assert (Forall (sliced Ktr Kts ytr folds) (trace (fit_and_score Ktr Kts ytr yts))) as Hsl.
  { apply fit_and_score_sliced. intros fs Hfs'. congruence. }
  repeat (split; [done|]).
  split; [|split; [done|split; [by eapply sliced_not_kernel|done]]].
  rewrite (trace_bind_Ok _ _ _ HXtr), (trace_bind_Ok _ _ _ HXts),
    (trace_bind_Ok _ _ _ Hytr), (trace_bind_Ok _ _ _ Hyts),
    (trace_bind_Ok _ _ _ HKtr), (trace_bind_Ok _ _ _ HKts).
  by rewrite !trace_lift, !trace_qk_eval.
Qed.

End Traces.

Lemma trace_bind_prefix {A B} (m : M A) (f : A → M B) :
  ∃ t, trace (m ≫= f) = trace m ++ t.
Proof.
  destruct (value m) as [a|e] eqn:Hv.
  - exists (trace (f a)). by apply trace_bind_Ok.
  - exists []. rewrite app_nil_r. by eapply trace_bind_Raise.
Qed.

(** ** Selection of the regularisation constant *)

Section Selection.
Context `{L : Libs}.
Variables (Ktr : matrix) (ytr : list label).

Lemma value_select_step bestC maxAcc C m :
  mean_acc Ktr ytr C m →
  value (select_step Ktr ytr (bestC, maxAcc) C) =
  Ok (if Qlt_le_dec maxAcc m then (Some C, m) else (bestC, maxAcc)).
Proof. intros Hm. unfold select_step. by rewrite (value_bind_Ok _ _ _ Hm). Qed.

(** The pair is replaced only by a strictly better candidate. *)
Lemma select_step_keeps bestC maxAcc C m :
  mean_acc Ktr ytr C m → m <= maxAcc →
  value (select_step Ktr ytr (bestC, maxAcc) C) = Ok (bestC, maxAcc).
Proof.
  intros Hm Hle. rewrite (value_select_step _ _ _ _ Hm).
  destruct (Qlt_le_dec maxAcc m) as [Hlt|_]; [|done].
  exfalso. by apply (Qlt_not_le _ _ Hlt).
Qed.

Lemma select_from (cs : list Q) (best0 : option Q) (max0 : Q) :
  (∀ C, In C cs → ∃ m, mean_acc Ktr ytr C m) →
  ∃ bestC maxAcc,
    value (foldM (select_step Ktr ytr) cs (best0, max0)) = Ok (bestC, maxAcc)
    ∧ max0 <= maxAcc
    ∧ (∀ C m, In C cs → mean_acc Ktr ytr C m → m <= maxAcc)
    ∧ ((bestC = best0 ∧ maxAcc = max0)
       ∨ (∃ pre c post,
            cs = pre ++ c :: post ∧ bestC = Some c ∧ mean_acc Ktr ytr c maxAcc ∧ max0 < maxAcc
            ∧ ∀ C m, In C pre → mean_acc Ktr ytr C m → m < maxAcc)).
Proof.
  revert best0 max0. induction cs as [|c cs IH]; intros best0 max0 Hall.
  - exists best0, max0. split; [done|]. split; [apply Qle_refl|].
    split; [intros ? ? []|by left].
  - destruct (Hall c (or_introl eq_refl)) as [mc Hmc].
    cbn [foldM]. rewrite (value_bind_Ok _ _ _ (value_select_step best0 max0 c mc Hmc)).
    assert (∀ m, mean_acc Ktr ytr c m → m = mc) as Hfun.
    { intros m Hm. unfold mean_acc in *. congruence. }
    destruct (Qlt_le_dec max0 mc) as [Hlt|Hle].
    + destruct (IH (Some c) mc) as (bestC & maxAcc & Hv & Hmax & Hrest & Hcase).
      { intros C HC. apply Hall. by right. }
      exists bestC, maxAcc. split; [done|].
      split; [apply Qlt_le_weak; by eapply Qlt_le_trans|].
      split.
      { intros C m [<-|HC] Hm; [by rewrite (Hfun m Hm)|by eapply Hrest]. }
      right. destruct Hcase as [[-> ->]|(pre & c' & post & -> & -> & Hc' & Hgt & Hpre)].
      * exists [], c, cs. repeat (split; [done|]). intros ? ? [].
      * exists (c :: pre), c', post. split; [done|]. split; [done|]. split; [done|].
        split; [by eapply Qlt_trans|].
        intros C m [<-|HC] Hm; [by rewrite (Hfun m Hm)|by eapply Hpre].
    + destruct (IH best0 max0) as (bestC & maxAcc & Hv & Hmax & Hrest & Hcase).
      { intros C HC. apply Hall. by right. }
      exists bestC, maxAcc. split; [done|]. split; [done|].
      split.
      { intros C m [<-|HC] Hm; [|by eapply Hrest].
        rewrite (Hfun m Hm). by eapply Qle_trans. }
      destruct Hcase as [[-> ->]|(pre & c' & post & -> & -> & Hc' & Hgt & Hpre)].
      * by left.
      * right. exists (c :: pre), c', post. repeat (split; [done|]).
        intros C m [<-|HC] Hm; [|by eapply Hpre].
        rewrite (Hfun m Hm). by eapply Qle_lt_trans.
Qed.




(** C2: [bestC] starts as None and [maxAcc] as 0, and a candidate whose
    mean fold accuracy is not strictly greater than [maxAcc] leaves both as
    they are; so when no candidate has a mean fold accuracy above 0 the
    selection ends with [bestC = None], and the final classifier is then built
    and fitted with [C = None] on the whole train kernel matrix. *)
Theorem no_candidate_selected (Kts : matrix) (yts : list label) :
  (∀ C, In C candidates → ∃ m, mean_acc Ktr ytr C m ∧ m <= 0) →
  select_C Ktr ytr = foldM (select_step Ktr ytr) [1 # 10; 1; 10] (None, 0)
  ∧ (∀ bestC maxAcc C m,
       mean_acc Ktr ytr C m → m <= maxAcc →
       value (select_step Ktr ytr (bestC, maxAcc) C) = Ok (bestC, maxAcc))
  ∧ value (select_C Ktr ytr) = Ok (None, 0)
  ∧ ∃ after,
      trace (fit_and_score Ktr Kts ytr yts) =
      trace (select_C Ktr ytr) ++ EvFit Ktr ytr None :: after.
Proof.
  intros Hall. split; [done|]. split; [apply select_step_keeps|].
  assert (value (select_C Ktr ytr) = Ok (None, 0)) as Hsel.
  { destruct (select_from candidates None 0) as (bestC & maxAcc & Hv & _ & _ & Hcase).
    { intros C HC. destruct (Hall C HC) as (m & Hm & _). by exists m. }
    destruct Hcase as [[-> ->]|(pre & c & post & Hcs & -> & Hc & Hgt & _)]; [done|].
    exfalso. destruct (Hall c) as (m & Hm & Hle).
    { rewrite Hcs. apply in_or_app. right. by left. }
    unfold mean_acc in *. rewrite Hc in Hm. injection Hm as <-.
    by apply (Qlt_not_le _ _ Hgt). }
  split; [done|]. unfold fit_and_score.
  rewrite (trace_bind_Ok _ _ _ Hsel).
  destruct (trace_bind_prefix (SVC_fit Ktr ytr None)
    (λ svc, pred ← SVC_predict svc Kts; a ← lift (accuracy_score yts pred);
            f ← lift (f1_score yts pred); mret (a, f))) as [after Hafter].
  exists after. by rewrite Hafter, trace_SVC_fit.
Qed.

End Selection.

(** ** Bounds on the metrics *)

Lemma Qratio_bounds (k n : nat) : (k ≤ n)%nat → (0 < n)%nat → 0 <= Qratio k n <= 1.
Proof.
  intros Hkn Hn. unfold Qratio.
  assert (0 < inject_Z (Z.of_nat n)) as Hpos.
  { rewrite <- (Zlt_Qlt 0). lia. }
  split.
  - apply Qle_shift_div_l; [done|]. rewrite Qmult_0_l. rewrite <- (Zle_Qle 0). lia.
  - apply Qle_shift_div_r; [done|]. rewrite Qmult_1_l. rewrite <- Zle_Qle. lia.
Qed.

Lemma count_where_le {A B} (p : A → B → bool) xs ys :
  (count_where p xs ys ≤ length xs)%nat.
Proof.
  unfold count_where.
  etrans; [apply List.filter_length_le|]. rewrite length_combine. lia.
Qed.

Lemma accuracy_score_bounds y_true y_pred a :
  accuracy_score y_true y_pred = Ok a → 0 <= a <= 1.
Proof.
  unfold accuracy_score. destruct (negb _); [discriminate|].
  destruct (length y_true =? 0)%nat eqn:Hlen; [discriminate|].
  intros [= <-]. apply Nat.eqb_neq in Hlen.
  apply Qratio_bounds; [apply count_where_le|lia].
Qed.

Lemma f1_score_bounds y_true y_pred f :
  f1_score y_true y_pred = Ok f → 0 <= f <= 1.
Proof.
  unfold f1_score. destruct (negb _); [discriminate|]. cbv zeta.
  destruct (2 <? _)%nat; [discriminate|]. destruct (_ && _); [discriminate|].
  destruct (_ =? 0)%nat eqn:Hden; intros [= <-].
  - split; [apply Qle_refl|discriminate].
  - apply Nat.eqb_neq in Hden. apply Qratio_bounds; lia.
Qed.

Lemma Qlen_cons x xs : Qlen (x :: xs) == 1 + Qlen xs.
Proof.
  unfold Qlen. cbn [length]. rewrite Nat2Z.inj_succ, <- Z.add_1_l.
  by rewrite inject_Z_plus.
Qed.

Lemma Qsum_bounds xs :
  Forall (λ x, 0 <= x <= 1) xs → 0 <= Qsum xs <= Qlen xs.
Proof.
  induction 1 as [|x xs [Hx0 Hx1] _ [IH0 IH1]].
  - split; apply Qle_refl.
  - rewrite Qlen_cons. cbn [Qsum fold_right]. fold (Qsum xs). split; lra.
Qed.

Lemma Qsum_nonneg xs : Forall (λ x, 0 <= x) xs → 0 <= Qsum xs.
Proof.
  induction 1 as [|x xs Hx _ IH]; [apply Qle_refl|].
  cbn [Qsum fold_right]. fold (Qsum xs). lra.
Qed.

Lemma Qlen_pos xs : xs ≠ [] → 0 < Qlen xs.
Proof.
  intros Hne. unfold Qlen. rewrite <- (Zlt_Qlt 0). destruct xs; [done|]. cbn [length]. lia.
Qed.

Lemma np_mean_bounds xs m :
  Forall (λ x, 0 <= x <= 1) xs → np_mean xs = Ok m → 0 <= m <= 1.
Proof.
  intros Hall. destruct xs as [|x xs]; [discriminate|]. intros [= <-].
  pose proof (Qsum_bounds _ Hall) as [H0 H1].
  pose proof (Qlen_pos (x :: xs) ltac:(done)) as Hpos.
  split.
  - apply Qle_shift_div_l; [done|]. by rewrite Qmult_0_l.
  - apply Qle_shift_div_r; [done|]. by rewrite Qmult_1_l.
Qed.

Lemma np_mean_nonneg xs m : Forall (λ x, 0 <= x) xs → np_mean xs = Ok m → 0 <= m.
Proof.
  intros Hall. destruct xs as [|x xs]; [discriminate|]. intros [= <-].
  apply Qle_shift_div_l; [by apply Qlen_pos|]. rewrite Qmult_0_l.
  exact (Qsum_nonneg (x :: xs) Hall).
Qed.

Lemma np_mean_Ok xs : xs ≠ [] → ∃ m, np_mean xs = Ok m.
Proof. destruct xs; [done|]. intros _. by eexists. Qed.

Lemma Qsquare_nonneg (a : Q) : 0 <= a * a.
Proof.
  destruct a as [n d]. unfold Qle, Qmult. simpl. rewrite Z.mul_1_r. apply Z.square_nonneg.
Qed.

Lemma np_var_nonneg xs v : np_var xs = Ok v → 0 <= v.
Proof.
  unfold np_var. destruct (np_mean xs) as [mu|]; [|discriminate].
  apply np_mean_nonneg. apply List.Forall_forall. intros d Hd.
  apply in_map_iff in Hd as (x & <- & _). apply Qsquare_nonneg.
Qed.

Lemma np_std_Ok xs : xs ≠ [] → ∃ s, np_std xs = Ok s.
Proof.
  intros Hne. unfold np_std, np_var.
  destruct (np_mean_Ok xs Hne) as [mu ->].
  destruct (np_mean_Ok (List.map (λ x, (x - mu) * (x - mu)) xs)) as [v ->]; [|by eexists].
  by destruct xs.
Qed.

(** The standard deviation is the root of a non-negative variance. *)
Lemma np_std_nonneg xs s :
  np_std xs = Ok s → (0 <= s)%R ∧ ∃ v, np_var xs = Ok v ∧ 0 <= v ∧ s = sqrt (Q2R v).
Proof.
  unfold np_std. destruct (np_var xs) as [v|] eqn:Hv; [|discriminate].
  intros [= <-]. split; [apply sqrt_pos|]. exists v. by split; [|split; [eapply np_var_nonneg|]].
Qed.

(** ** Loops that append *)

Lemma foldM_value_snoc {A B S} (G : A → B → Prop) (snoc : S → B → S)
    (body : S → A → M S) (xs : list A) :
  (∀ s x, In x xs → ∃ b, G x b ∧ value (body s x) = Ok (snoc s b)) →
  ∀ s, ∃ bs, Forall2 G xs bs ∧ value (foldM body xs s) = Ok (fold_left snoc bs s).
Proof.
  induction xs as [|x xs IH]; intros Hbody s.
  - exists []. by split; [constructor|].
  - destruct (Hbody s x (or_introl eq_refl)) as (b & HG & Hv).
    destruct (IH (λ s' x' Hin, Hbody s' x' (or_intror Hin)) (snoc s b)) as (bs & HF & Hvs).
    exists (b :: bs). split; [by constructor|].
    cbn [foldM]. by rewrite (value_bind_Ok _ _ _ Hv).
Qed.

Lemma fold_left_snoc {B} (bs s : list B) : fold_left (λ s b, s ++ [b]) bs s = s ++ bs.
Proof.
  revert s. induction bs as [|b bs IH]; intros s; simpl; [by rewrite app_nil_r|].
  by rewrite IH, <- app_assoc.
Qed.

Lemma fold_left_app_concat {B} (bss : list (list B)) (s : list B) :
  fold_left (λ s bs, s ++ bs) bss s = s ++ concat bss.
Proof.
  revert s. induction bss as [|bs bss IH]; intros s; simpl; [by rewrite app_nil_r|].
  by rewrite IH, <- app_assoc.
Qed.

Lemma fold_left_snoc_pair {A B} (ps : list (A * B)) (s : list A * list B) :
  fold_left (λ (s : list A * list B) (p : A * B), (s.1 ++ [p.1], s.2 ++ [p.2])) ps s =
  (s.1 ++ List.map fst ps, s.2 ++ List.map snd ps).
Proof.
  revert s. induction ps as [|p ps IH]; intros [s1 s2]; simpl; [by rewrite !app_nil_r|].
  by rewrite IH; simpl; rewrite <- !app_assoc.
Qed.

Lemma is_Ok_true {A} (r : result A) : is_Ok r = true → ∃ a, r = Ok a.
Proof. destruct r; [by eexists|discriminate]. Qed.

(** ** The classical evaluator *)

Section Classical.
Context `{L : Libs}.

Lemma score_model_row split Xtr Xts ytr yts entry row :
  value (score_model split Xtr Xts ytr yts entry) = Ok row → crow_ok split entry row.
Proof.
  destruct entry as [m [clf grid]]. unfold score_model. intros Hv.
  apply value_bind_inv in Hv as (gs & _ & Hv).
  apply value_bind_inv in Hv as (pred & _ & Hv).
  apply value_bind_inv in Hv as (a & Ha & Hv).
  apply value_bind_inv in Hv as (f & Hf & Hv).
  injection Hv as <-. rewrite value_lift in Ha, Hf.
  repeat split; try done;
    first [eapply accuracy_score_bounds; eassumption | eapply f1_score_bounds; eassumption].
Qed.

Lemma eval_classical_split_rows Xs y rows it :
  classical_split_ok Xs y it = true →
  ∃ rows_it,
    Forall2 (crow_ok (fst it)) classical_grids rows_it
    ∧ value (eval_classical_split Xs y rows it) = Ok (rows ++ rows_it).
Proof.
  destruct it as [split [tr ts]]. unfold classical_split_ok, eval_classical_split.
  destruct (index_rows Xs tr) as [Xtr|] eqn:HXtr; [|discriminate].
  destruct (index_rows Xs ts) as [Xts|] eqn:HXts; [|discriminate].
  destruct (index_rows y tr) as [ytr|] eqn:Hytr; [|discriminate].
  destruct (index_rows y ts) as [yts|] eqn:Hyts; [|discriminate].
  intros Hok. rewrite forallb_forall in Hok.
  rewrite (value_bind_Ok _ _ Xtr), (value_bind_Ok _ _ Xts),
    (value_bind_Ok _ _ ytr), (value_bind_Ok _ _ yts) by done.
  destruct (foldM_value_snoc (crow_ok split) (λ rows row, rows ++ [row])
              (eval_classical_model split Xtr Xts ytr yts) classical_grids) with (s := rows)
    as (rows_it & HF & Hv).
  { intros s entry Hin. apply Hok, is_Ok_true in Hin as [row Hrow].
    exists row. split; [by eapply score_model_row|].
    unfold eval_classical_model. by rewrite (value_bind_Ok _ _ _ Hrow). }
  exists rows_it. split; [done|]. by rewrite Hv, fold_left_snoc.
Qed.

Lemma crow_ok_keys split rows :
  Forall2 (crow_ok split) classical_grids rows →
  List.map (λ r, (c_split r, c_model r)) rows =
    List.map (λ m, (split, m)) ["LogReg"; "SVM-linear"; "SVM-poly"; "SVM-rbf"]
  ∧ Forall (λ r, 0 <= c_acc r <= 1 ∧ 0 <= c_f1 r <= 1) rows.
Proof.
  unfold classical_grids. cbn [dict_set String.eqb Ascii.eqb Bool.eqb].
  intros HF.
  repeat match goal with
         | H : Forall2 _ (_ :: _) _ |- _ => inversion H; subst; clear H
         | H : Forall2 _ [] _ |- _ => inversion H; subst; clear H
         | H : crow_ok _ _ _ |- _ => destruct H as (? & ? & ? & ?)
         end.
  cbn [List.map fst] in *. split; [by repeat f_equal; f_equal|].
  repeat constructor; tauto.
Qed.

(** C5: when the scaler and the splitter return, the splitter yields the
    three splits it was asked for, and on every split the indexing and every
    model's search, prediction and scoring succeed, [eval_classical] returns
    exactly 12 rows, one for each pair of a split in 1..3 and a model among
    LogReg, SVM-linear, SVM-poly, SVM-rbf, in that order, and in every row
    both the accuracy and the F1 value lie between 0 and 1. *)
Theorem eval_classical_rows X y Xs splits :
  StandardScaler_fit_transform X = Ok Xs →
  StratifiedShuffleSplit_split 3 (3 # 10) SEED Xs y = Ok splits →
  length splits = 3%nat →
  forallb (classical_split_ok Xs y) (enumerate 1 splits) = true →
  ∃ rows,
    value (eval_classical X y) = Ok rows
    ∧ length rows = 12%nat
    ∧ List.map (λ r, (c_split r, c_model r)) rows =
        list_prod [1; 2; 3]%nat ["LogReg"; "SVM-linear"; "SVM-poly"; "SVM-rbf"]
    ∧ Forall (λ r, 0 <= c_acc r <= 1 ∧ 0 <= c_f1 r <= 1) rows.
Proof.
  intros HXs Hsplits Hlen Hok. rewrite forallb_forall in Hok.
  unfold eval_classical.
  rewrite (value_bind_Ok _ _ Xs), (value_bind_Ok _ _ splits) by done.
  destruct (foldM_value_snoc (λ it rows_it, Forall2 (crow_ok (fst it)) classical_grids rows_it)
              (λ rows rows_it, rows ++ rows_it)
              (eval_classical_split Xs y) (enumerate 1 splits)) with (s := @nil crow)
    as (bss & HF & Hv).
  { intros s it Hin. by apply eval_classical_split_rows, Hok. }
  rewrite fold_left_app_concat in Hv. simpl in Hv.
  exists (concat bss). split; [done|].
  destruct splits as [|s1 [|s2 [|s3 [|]]]]; try discriminate.
  unfold enumerate in HF. cbn [length seq combine] in HF.
  inversion HF as [|? b1 ? ? H1 HF1]; subst.
  inversion HF1 as [|? b2 ? ? H2 HF2]; subst.
  inversion HF2 as [|? b3 ? ? H3 HF3]; subst.
  inversion HF3; subst.
  apply crow_ok_keys in H1 as [K1 B1], H2 as [K2 B2], H3 as [K3 B3].
  cbn [fst] in *. cbn [concat]. rewrite app_nil_r.
  assert (List.map (λ r, (c_split r, c_model r)) (b1 ++ b2 ++ b3) =
          list_prod [1; 2; 3]%nat ["LogReg"; "SVM-linear"; "SVM-poly"; "SVM-rbf"]) as HK.
  { by rewrite !map_app, K1, K2, K3. }
  split; [|split; [done|]].
  - apply (f_equal length) in HK. by rewrite length_map in HK.
  - by rewrite !Forall_app.
Qed.

End Classical.

(** ** The quantum evaluator *)

Section Quantum.
Context `{L : Libs}.

Lemma fit_and_score_bounds Ktr Kts ytr yts a f :
  value (fit_and_score Ktr Kts ytr yts) = Ok (a, f) → 0 <= a <= 1 ∧ 0 <= f <= 1.
Proof.
  unfold fit_and_score. intros Hv.
  apply value_bind_inv in Hv as ([bestC maxAcc] & _ & Hv).
  apply value_bind_inv in Hv as (svc & _ & Hv).
  apply value_bind_inv in Hv as (pred & _ & Hv).
  apply value_bind_inv in Hv as (a' & Ha & Hv).
  apply value_bind_inv in Hv as (f' & Hf & Hv).
  injection Hv as <- <-. rewrite value_lift in Ha, Hf.
  split; [by eapply accuracy_score_bounds|by eapply f1_score_bounds].
Qed.

Lemma score_split_bounds fmap data_scale Xs y sp a f :
  value (score_split fmap data_scale Xs y sp) = Ok (a, f) → 0 <= a <= 1 ∧ 0 <= f <= 1.
Proof.
  destruct sp as [tr ts]. unfold score_split. intros Hv.
  apply value_bind_inv in Hv as (Xtr_raw & _ & Hv).
  apply value_bind_inv in Hv as (Xts_raw & _ & Hv).
  apply value_bind_inv in Hv as (ytr & _ & Hv).
  apply value_bind_inv in Hv as (yts & _ & Hv).
  apply value_bind_inv in Hv as (Ktr & _ & Hv).
  apply value_bind_inv in Hv as (Kts & _ & Hv).
  by eapply fit_and_score_bounds.
Qed.

Lemma eval_map_row Xs y splits out entry :
  StratifiedShuffleSplit_split 10 (3 # 10) SEED Xs y = Ok splits →
  splits ≠ [] →
  quantum_map_ok Xs y splits entry = true →
  ∃ row,
    (qrow_ok Xs y splits entry row ∧ qrow_bounds row)
    ∧ value (eval_map Xs y out entry) = Ok (out ++ [row]).
Proof.
  destruct entry as [name [fmap data_scale]]. intros Hsplits Hne Hok.
  unfold quantum_map_ok in Hok. rewrite forallb_forall in Hok.
  unfold eval_map. rewrite (value_bind_Ok _ _ splits) by done.
  destruct (foldM_value_snoc
              (λ sp s, value (score_split fmap data_scale Xs y sp) = Ok s)
              (λ (st : list Q * list Q) (p : Q * Q), (st.1 ++ [p.1], st.2 ++ [p.2]))
              (eval_split fmap data_scale Xs y) splits) with (s := (@nil Q, @nil Q))
    as (scores & HF & Hv).
  { intros [accs f1s] sp Hin. apply Hok, is_Ok_true in Hin as [[a f] Hs].
    exists (a, f). split; [done|].
    unfold eval_split. by rewrite (value_bind_Ok _ _ _ Hs). }
  rewrite fold_left_snoc_pair in Hv. simpl in Hv.
  rewrite (value_bind_Ok _ _ _ Hv).
  assert (scores ≠ []) as Hsc.
  { intros ->. inversion HF; by subst. }
  assert (Forall (λ s, (0 <= s.1 <= 1) ∧ (0 <= s.2 <= 1)) scores) as Hb.
  { clear -HF. induction HF as [|sp [a f] ? ? Hs _ IH]; constructor; [|done].
    by eapply score_split_bounds. }
  assert (List.map fst scores ≠ []) as Hn1 by (by destruct scores).
  assert (List.map snd scores ≠ []) as Hn2 by (by destruct scores).
  destruct (np_mean_Ok _ Hn1) as [am Ham].
  destruct (np_std_Ok _ Hn1) as [sd Hsd].
  destruct (np_mean_Ok _ Hn2) as [fm Hfm].
  rewrite (value_bind_Ok _ _ am), (value_bind_Ok _ _ sd), (value_bind_Ok _ _ fm) by done.
  eexists. split; [|reflexivity]. split.
  - split; [done|]. exists scores. by cbn.
  - unfold qrow_bounds; cbn. split; [|split].
    + eapply np_mean_bounds; [|done]. apply Forall_map.
      eapply Forall_impl; [done|]. by intros ? [? _].
    + by eapply np_std_nonneg.
    + eapply np_mean_bounds; [|done]. apply Forall_map.
      eapply Forall_impl; [done|]. by intros ? [_ ?].
Qed.

Lemma qrow_ok_names Xs y splits entries rows :
  Forall2 (λ entry row, qrow_ok Xs y splits entry row ∧ qrow_bounds row) entries rows →
  List.map q_map rows = keys entries ∧ Forall qrow_bounds rows.
Proof.
  induction 1 as [|entry row ? ? [[Hname _] Hb] _ [IHn IHb]]; [done|].
  split; [|by constructor]. unfold keys in *. cbn [List.map]. by rewrite Hname, IHn.
Qed.

(** C6: when the scaler and the splitter return, the splitter yields the ten
    splits it was asked for, and every split of every feature map is scored
    (its indexing, kernel evaluations, fits and predictions all succeed),
    [eval_qsvm] returns exactly five rows, named after the five catalogue
    entries in catalogue order; each row holds the mean and the standard
    deviation of the ten test accuracies of its feature map and the mean of the
    ten F1 values; the two means lie between 0 and 1 and the standard deviation
    is at least 0. *)
Theorem eval_qsvm_rows X y Xs splits :
  MinMaxScaler_fit_transform X = Ok Xs →
  StratifiedShuffleSplit_split 10 (3 # 10) SEED Xs y = Ok splits →
  length splits = 10%nat →
  forallb (quantum_map_ok Xs y splits) build_maps = true →
  ∃ rows,
    value (eval_qsvm X y) = Ok rows
    ∧ length rows = 5%nat
    ∧ List.map q_map rows =
        ["ZF-reps1"; "ZF-reps2"; "ZF-alpha05"; "ZF-LinEnt"; "ZF-alpha05-LinEnt"]
    ∧ Forall2 (qrow_ok Xs y splits) build_maps rows
    ∧ Forall qrow_bounds rows.
Proof.
  intros HXs Hsplits Hlen Hok. rewrite forallb_forall in Hok.
  assert (splits ≠ []) as Hne by (by destruct splits).
  unfold eval_qsvm. rewrite (value_bind_Ok _ _ Xs) by done.
  destruct (foldM_value_snoc
              (λ entry row, qrow_ok Xs y splits entry row ∧ qrow_bounds row)
              (λ out row, out ++ [row]) (eval_map Xs y) build_maps) with (s := @nil qrow)
    as (rows & HF & Hv).
  { intros out entry Hin. by apply eval_map_row, Hok. }
  rewrite fold_left_snoc in Hv. simpl in Hv.
  exists rows. split; [done|].
  destruct (qrow_ok_names _ _ _ _ _ HF) as [Hnames Hbounds].
  assert (List.map q_map rows =
          ["ZF-reps1"; "ZF-reps2"; "ZF-alpha05"; "ZF-LinEnt"; "ZF-alpha05-LinEnt"]) as HN.
  { by rewrite Hnames. }
  split; [|split; [done|split; [|done]]].
  - apply (f_equal length) in HN. by rewrite length_map in HN.
  - eapply Forall2_impl; [done|]. by intros ? ? [? _].
Qed.

End Quantum.

(** ** The whole run *)

Section Run.
Context `{L : Libs}.

Lemma trace_eval_classical X y : trace (eval_classical X y) = [].
Proof.
  assert (Forall (λ _, False) (trace (eval_classical X y))) as HF;
    [|by destruct HF].
  unfold eval_classical.
  apply Forall_trace_bind; [apply Forall_trace_lift|]. intros Xs _.
  apply Forall_trace_bind; [apply Forall_trace_lift|]. intros splits _.
  apply Forall_trace_foldM. intros rows [split [tr ts]] _. unfold eval_classical_split.
  do 4 (apply Forall_trace_bind; [apply Forall_trace_lift|]; intros ? _).
  apply Forall_trace_foldM. intros rows' [m [clf grid]] _.
  unfold eval_classical_model, score_model.
  apply Forall_trace_bind; [|intros; apply Forall_trace_ret].
  do 4 (apply Forall_trace_bind; [apply Forall_trace_lift|]; intros ? _).
  apply Forall_trace_ret.
Qed.

Lemma sliced_not_save Ktr Kts ytr folds e : sliced Ktr Kts ytr folds e → is_save e = false.
Proof. by destruct e. Qed.

Lemma eval_qsvm_no_save X y : Forall (λ e, is_save e = false) (trace (eval_qsvm X y)).
Proof.
  unfold eval_qsvm.
  apply Forall_trace_bind; [apply Forall_trace_lift|]. intros Xs _.
  apply Forall_trace_foldM. intros out [name [fmap data_scale]] _. unfold eval_map.
  apply Forall_trace_bind; [apply Forall_trace_lift|]. intros splits _.
  apply Forall_trace_bind.
  2:{ intros [accs f1s] _.
      do 3 (apply Forall_trace_bind; [apply Forall_trace_lift|]; intros ? _).
      apply Forall_trace_ret. }
  apply Forall_trace_foldM. intros [accs f1s] [tr ts] _. unfold eval_split, score_split.
  apply Forall_trace_bind; [|intros [a f] _; apply Forall_trace_ret].
  apply Forall_trace_bind; [apply Forall_trace_lift|]; intros Xtr_raw _.
  apply Forall_trace_bind; [apply Forall_trace_lift|]; intros Xts_raw _.
  apply Forall_trace_bind; [apply Forall_trace_lift|]; intros ytr _.
  apply Forall_trace_bind; [apply Forall_trace_lift|]; intros yts _.
  apply Forall_trace_bind; [by rewrite trace_qk_eval; repeat constructor|]. intros Ktr _.
  apply Forall_trace_bind; [by rewrite trace_qk_eval; repeat constructor|]. intros Kts _.
  eapply Forall_impl.
  - apply (fit_and_score_sliced Ktr Kts _ _
             (match StratifiedKFold_split 10 true SEED Ktr ytr with Ok fs => fs | Raise _ => [] end)).
    by intros fs ->.
  - intros e. apply sliced_not_save.
Qed.

Lemma filter_is_save_none t : Forall (λ e, is_save e = false) t → List.filter is_save t = [].
Proof.
  induction 1 as [|e t He _ IH]; [done|].
  cbn [List.filter]. by rewrite He.
Qed.

(** C4, as the code has it: a run that ends normally has saved one
    workbook, once, as its last action but for the closing print, to the file
    Resultados_IrisLineal_QBoost.xlsx; the workbook has exactly two sheets,
    named Clasicos and Cuanticos in that order, holding the classical and the
    quantum table. *)
Theorem main_saves_once (X_raw : matrix) (y_raw : list label) :
  value (main X_raw y_raw) = Ok tt →
  ∃ before df_c df_q w,
    value (eval_classical X_raw y_raw) = Ok df_c
    ∧ value (eval_qsvm X_raw y_raw) = Ok df_q
    ∧ trace (main X_raw y_raw) =
        before ++ [EvSave xlsx_path w; EvPrint (PStr "
 Resultados guardados en Resultados_IrisLineal_QBoost.xlsx")]
    ∧ List.filter is_save before = []
    ∧ w = [("Clasicos", SheetC df_c); ("Cuanticos", SheetQ df_q)]
    ∧ sheet_names w = ["Clasicos"; "Cuanticos"]
    ∧ length (List.filter is_save (trace (main X_raw y_raw))) = 1%nat.
Proof.
  pose proof (trace_eval_classical X_raw y_raw) as Htc.
  pose proof (filter_is_save_none _ (eval_qsvm_no_save X_raw y_raw)) as Htq.
  unfold main.
  rewrite (value_bind_Ok _ _ tt), (trace_bind_Ok _ _ tt) by done.
  destruct (value (eval_classical X_raw y_raw)) as [df_c|e] eqn:Hc.
  2:{ by rewrite (value_bind_Raise _ _ _ Hc). }
  rewrite (value_bind_Ok _ _ _ Hc), (trace_bind_Ok _ _ _ Hc), Htc.
  rewrite (value_bind_Ok _ _ tt), (trace_bind_Ok _ _ tt) by done.
  rewrite (value_bind_Ok _ _ tt), (trace_bind_Ok _ _ tt) by done.
  destruct (value (eval_qsvm X_raw y_raw)) as [df_q|e] eqn:Hq.
  2:{ by rewrite (value_bind_Raise _ _ _ Hq). }
  rewrite (value_bind_Ok _ _ _ Hq), (trace_bind_Ok _ _ _ Hq). intros _.
  rewrite trace_report. cbn [trace emit fst app].
  eexists (_ :: _ :: _ :: trace (eval_qsvm X_raw y_raw) ++ [_]), df_c, df_q, _.
  split; [done|]. split; [done|]. split.
  { rewrite <- !app_comm_cons, <- app_assoc. reflexivity. }
  split; [cbn [List.filter is_save]; by rewrite List.filter_app, Htq|].
  split; [done|]. split; [done|].
  cbn [List.filter is_save]. by rewrite List.filter_app, Htq.
Qed.

End Run.

(** ** Selecting rows and columns *)

Lemma index_rows_app {A} (a : list A) idx1 idx2 r1 r2 :
  index_rows a idx1 = Ok r1 → index_rows a idx2 = Ok r2 →
  index_rows a (idx1 ++ idx2) = Ok (r1 ++ r2).
Proof.
  revert r1. induction idx1 as [|i idx1 IH]; intros r1 H1 H2; simpl in *.
  - by injection H1 as <-.
  - destruct (nth_error a i) as [x|]; [|discriminate].
    destruct (index_rows a idx1) as [r|]; [|discriminate].
    injection H1 as <-. by rewrite (IH r eq_refl H2).
Qed.

Lemma index_rows_app_inv {A} (a : list A) idx1 idx2 r :
  index_rows a (idx1 ++ idx2) = Ok r →
  ∃ r1 r2, index_rows a idx1 = Ok r1 ∧ index_rows a idx2 = Ok r2 ∧ r = r1 ++ r2.
Proof.
  revert r. induction idx1 as [|i idx1 IH]; intros r Hr; simpl in *.
  - by exists [], r.
  - destruct (nth_error a i) as [x|]; [|discriminate].
    destruct (index_rows a (idx1 ++ idx2)) as [r'|]; [|discriminate].
    injection Hr as <-. destruct (IH r' eq_refl) as (r1 & r2 & -> & -> & ->).
    by exists (x :: r1), r2.
Qed.

Lemma index_rows_shift {A} (x : A) (a : list A) idx :
  index_rows (x :: a) (List.map S idx) = index_rows a idx.
Proof. induction idx as [|i idx IH]; simpl; [done|]. by rewrite IH. Qed.

Lemma index_rows_all {A} (a : list A) : index_rows a (seq 0 (length a)) = Ok a.
Proof.
  induction a as [|x a IH]; [done|].
  cbn [length seq]. rewrite <- seq_shift. cbn [index_rows nth_error].
  by rewrite index_rows_shift, IH.
Qed.

Lemma index_rows_perm {A} (a : list A) idx idx' r :
  idx ≡ₚ idx' → index_rows a idx = Ok r →
  ∃ r', index_rows a idx' = Ok r' ∧ r ≡ₚ r'.
Proof.
  intros Hp. revert r. induction Hp as [|i idx idx' _ IH|i j idx|idx1 idx2 idx3 _ IH1 _ IH2];
    intros r Hr; simpl in *.
  - by exists r.
  - destruct (nth_error a i) as [x|]; [|discriminate].
    destruct (index_rows a idx) as [r0|]; [|discriminate].
    injection Hr as <-. destruct (IH r0 eq_refl) as (r' & -> & Hr').
    exists (x :: r'). by split; [|constructor].
  - destruct (nth_error a j) as [xj|]; [|discriminate].
    destruct (nth_error a i) as [xi|]; [|discriminate].
    destruct (index_rows a idx) as [r0|]; [|discriminate].
    injection Hr as <-. exists (xi :: xj :: r0). split; [done|apply perm_swap].
  - destruct (IH1 r Hr) as (r1 & Hr1 & Hp1). destruct (IH2 r1 Hr1) as (r2 & Hr2 & Hp2).
    exists r2. split; [done|by etrans].
Qed.

Lemma index_rows_out_of_range {A} (a : list A) idx :
  Exists (λ i, length a ≤ i)%nat idx → index_rows a idx = Raise IndexError.
Proof.
  induction 1 as [i idx Hi|i idx _ IH]; simpl.
  - by rewrite (proj2 (nth_error_None a i) Hi).
  - rewrite IH. by destruct (nth_error a i).
Qed.

Lemma index_rows_raises {A} (a : list A) idx e :
  index_rows a idx = Raise e → e = IndexError.
Proof.
  induction idx as [|i idx IH]; simpl; [discriminate|].
  destruct (nth_error a i); [|by intros [= <-]].
  destruct (index_rows a idx); [discriminate|]. intros [= <-]. by apply IH.
Qed.

Lemma index_rows_map {A B} (f : A → B) (a : list A) idx :
  index_rows (List.map f a) idx =
  match index_rows a idx with
  | Ok r => Ok (List.map f r)
  | Raise e => Raise e
  end.
Proof.
  induction idx as [|i idx IH]; simpl; [done|].
  rewrite nth_error_map. destruct (nth_error a i) as [x|]; simpl; [|done].
  rewrite IH. by destruct (index_rows a idx).
Qed.

Lemma index_cols_kernel_matrix k (a b : matrix) cols bc :
  index_rows b cols = Ok bc →
  index_cols (kernel_matrix k a b) cols = Ok (kernel_matrix k a bc).
Proof.
  intros Hb. unfold kernel_matrix.
  induction a as [|u a IH]; cbn [List.map index_cols]; [done|].
  rewrite index_rows_map. unfold vector, matrix in *. by rewrite Hb, IH.
Qed.

(** X1: a block of a kernel matrix is the kernel matrix of the selected
    points: cutting rows [rows] and columns [cols] out of the matrix of [k]
    between [a] and [b] gives the matrix of [k] between the points [a[rows]]
    and [b[cols]]. *)
Theorem block_kernel_matrix k (a b : matrix) rows cols ar bc :
  index_rows a rows = Ok ar → index_rows b cols = Ok bc →
  block (kernel_matrix k a b) rows cols = Ok (kernel_matrix k ar bc).
Proof.
  intros Ha Hb. unfold block, kernel_matrix at 1.
  rewrite index_rows_map. unfold vector, matrix in *. rewrite Ha.
  by apply index_cols_kernel_matrix.
Qed.

(** X2: when the train and test indices of a split together list every
    position of the data once, the selected train and test rows together are
    a rearrangement of all the rows: the split loses and repeats no sample. *)
Theorem split_rows_partition {A} (a : list A) (tr ts : indices) :
  tr ++ ts ≡ₚ seq 0 (length a) →
  ∃ atr ats,
    index_rows a tr = Ok atr ∧ index_rows a ts = Ok ats
    ∧ atr ++ ats ≡ₚ a
    ∧ length atr = length tr ∧ length ats = length ts.
Proof.
  intros Hp. symmetry in Hp.
  destruct (index_rows_perm a _ _ a Hp (index_rows_all a)) as (r & Hr & Hperm).
  destruct (index_rows_app_inv _ _ _ _ Hr) as (atr & ats & Htr & Hts & ->).
  exists atr, ats. repeat (split; [done|]).
  assert (∀ idx (r : list A), index_rows a idx = Ok r → length r = length idx) as Hlen.
  { clear. induction idx as [|i idx IH]; intros r; simpl; [by intros [= <-]|].
    destruct (nth_error a i); [|discriminate].
    destruct (index_rows a idx) as [r0|]; [|discriminate].
    intros [= <-]. simpl. by rewrite (IH r0). }
  by split; apply Hlen.
Qed.

(** X3: scaling commutes with the selection of rows: the rows of a split
    taken from the data and then multiplied by the scale factor are the rows
    of the split taken from the scaled data, and an out-of-range index raises
    either way. *)
Theorem scale_then_select (Xs : matrix) (data_scale : Q) (idx : indices) :
  index_rows (scale_matrix Xs data_scale) idx =
  match index_rows Xs idx with
  | Ok r => Ok (scale_matrix r data_scale)
  | Raise e => Raise e
  end.
Proof. unfold scale_matrix. apply index_rows_map. Qed.

(** ** Failure and cost of the quantum evaluator *)

Lemma count_app p t1 t2 : count p (t1 ++ t2) = (count p t1 + count p t2)%nat.
Proof. unfold count. by rewrite List.filter_app, length_app. Qed.

Lemma count_foldM {A S} (p : event → bool) (n : nat) (body : S → A → M S) xs :
  (∀ s x s', In x xs → value (body s x) = Ok s' → count p (trace (body s x)) = n) →
  ∀ s s', value (foldM body xs s) = Ok s' →
          count p (trace (foldM body xs s)) = (length xs * n)%nat.
Proof.
  induction xs as [|x xs IH]; intros Hbody s s' Hv; [done|].
  cbn [foldM] in *. apply value_bind_inv in Hv as (s1 & Hb & Hrest).
  rewrite (trace_bind_Ok _ _ _ Hb), count_app.
  rewrite (Hbody s x s1 (or_introl eq_refl) Hb).
  rewrite (IH (λ s0 x0 s0' Hin, Hbody s0 x0 s0' (or_intror Hin)) s1 s' Hrest).
  cbn [length]. lia.
Qed.

Section Cost.
Context `{L : Libs}.

(** A predicate on events that counts [n] on each fit followed by its
    prediction and [m] on each kernel evaluation. *)
Variables (p : event → bool) (n m : nat).
Hypothesis p_fit_predict : ∀ K y C K', count p [EvFit K y C; EvPredict K'] = n.
Hypothesis p_kernel : ∀ fmap x y, count p [EvKernel fmap x y] = m.

Lemma count_cv_fold Ktr ytr C acc_fold fold r :
  value (cv_fold Ktr ytr C acc_fold fold) = Ok r →
  count p (trace (cv_fold Ktr ytr C acc_fold fold)) = n.
Proof.
  destruct fold as [tri vali]. unfold cv_fold. intros Hv.
  apply value_bind_inv in Hv as (Ktt & HKtt & Hv). rewrite (trace_bind_Ok _ _ _ HKtt).
  apply value_bind_inv in Hv as (ytt & Hytt & Hv). rewrite (trace_bind_Ok _ _ _ Hytt).
  apply value_bind_inv in Hv as (svc & Hsvc & Hv). rewrite (trace_bind_Ok _ _ _ Hsvc).
  apply value_bind_inv in Hv as (yv & Hyv & Hv). rewrite (trace_bind_Ok _ _ _ Hyv).
  apply value_bind_inv in Hv as (Kvt & HKvt & Hv). rewrite (trace_bind_Ok _ _ _ HKvt).
  apply value_bind_inv in Hv as (pred & Hpred & Hv). rewrite (trace_bind_Ok _ _ _ Hpred).
  apply value_bind_inv in Hv as (a & Ha & Hv). rewrite (trace_bind_Ok _ _ _ Ha).
  rewrite !trace_lift, trace_SVC_fit, trace_SVC_predict. cbn [app trace mret M_ret ret fst].
  apply p_fit_predict.
Qed.

Lemma count_cv_mean Ktr ytr C folds r :
  StratifiedKFold_split 10 true SEED Ktr ytr = Ok folds →
  value (cv_mean Ktr ytr C) = Ok r →
  count p (trace (cv_mean Ktr ytr C)) = (length folds * n)%nat.
Proof.
  intros Hfolds. unfold cv_mean. rewrite (value_bind_Ok _ _ folds), (trace_bind_Ok _ _ folds) by done.
  intros Hv. apply value_bind_inv in Hv as (acc_fold & Hloop & Hv).
  rewrite (trace_bind_Ok _ _ _ Hloop), !trace_lift, app_nil_r. cbn [app].
  eapply count_foldM; [|done]. intros s x s' _. apply count_cv_fold.
Qed.

Lemma count_select_C Ktr ytr folds r :
  StratifiedKFold_split 10 true SEED Ktr ytr = Ok folds →
  value (select_C Ktr ytr) = Ok r →
  count p (trace (select_C Ktr ytr)) = (3 * (length folds * n))%nat.
Proof.
  intros Hfolds Hv. unfold select_C in *.
  rewrite (count_foldM p (length folds * n) _ candidates) with (s' := r); [done| |done].
  intros [bestC maxAcc] C s' _ Hs. unfold select_step in *.
  apply value_bind_inv in Hs as (mC & HmC & _).
  rewrite (trace_bind_Ok _ _ _ HmC). cbn [trace mret M_ret ret fst]. rewrite app_nil_r.
  by eapply count_cv_mean.
Qed.

Lemma count_score_split fmap data_scale Xs y sp r :
  (∀ K yy fs, StratifiedKFold_split 10 true SEED K yy = Ok fs → length fs = 10%nat) →
  value (score_split fmap data_scale Xs y sp) = Ok r →
  count p (trace (score_split fmap data_scale Xs y sp)) = (2 * m + 31 * n)%nat.
Proof.
  intros Hskf. destruct sp as [tr ts]. unfold score_split. intros Hv.
  apply value_bind_inv in Hv as (Xtr_raw & H1 & Hv). rewrite (trace_bind_Ok _ _ _ H1).
  apply value_bind_inv in Hv as (Xts_raw & H2 & Hv). rewrite (trace_bind_Ok _ _ _ H2).
  apply value_bind_inv in Hv as (ytr & H3 & Hv). rewrite (trace_bind_Ok _ _ _ H3).
  apply value_bind_inv in Hv as (yts & H4 & Hv). rewrite (trace_bind_Ok _ _ _ H4).
  apply value_bind_inv in Hv as (Ktr & H5 & Hv). rewrite (trace_bind_Ok _ _ _ H5).
  apply value_bind_inv in Hv as (Kts & H6 & Hv). rewrite (trace_bind_Ok _ _ _ H6).
  rewrite !trace_lift, !trace_qk_eval. cbn [app].
  change (EvKernel fmap ?a ?b :: EvKernel fmap ?c ?d :: ?t)
    with ([EvKernel fmap a b] ++ [EvKernel fmap c d] ++ t).
  rewrite !count_app, !p_kernel.
  unfold fit_and_score in *.
  apply value_bind_inv in Hv as ([bestC maxAcc] & Hsel & Hv).
  rewrite (trace_bind_Ok _ _ _ Hsel), count_app.
  destruct (select_C_folds _ _ _ Hsel) as [folds Hfolds].
  rewrite (count_select_C _ _ folds _ Hfolds Hsel), (Hskf _ _ _ Hfolds).
  apply value_bind_inv in Hv as (svc & Hsvc & Hv). rewrite (trace_bind_Ok _ _ _ Hsvc).
  apply value_bind_inv in Hv as (pred & Hpred & Hv). rewrite (trace_bind_Ok _ _ _ Hpred).
  apply value_bind_inv in Hv as (a & Ha & Hv). rewrite (trace_bind_Ok _ _ _ Ha).
  apply value_bind_inv in Hv as (f & Hf & Hv). rewrite (trace_bind_Ok _ _ _ Hf).
  rewrite !trace_lift, trace_SVC_fit, trace_SVC_predict. cbn [app trace mret M_ret ret fst].
  rewrite p_fit_predict. lia.
Qed.

Lemma count_eval_qsvm X y rows :
  (∀ Xs yy sp, StratifiedShuffleSplit_split 10 (3 # 10) SEED Xs yy = Ok sp → length sp = 10%nat) →
  (∀ K yy fs, StratifiedKFold_split 10 true SEED K yy = Ok fs → length fs = 10%nat) →
  value (eval_qsvm X y) = Ok rows →
  count p (trace (eval_qsvm X y)) = (100 * m + 1550 * n)%nat.
Proof.
  intros Hsss Hskf. unfold eval_qsvm. intros Hv.
  apply value_bind_inv in Hv as (Xs & HXs & Hv). rewrite (trace_bind_Ok _ _ _ HXs).
  rewrite trace_lift. cbn [app].
  rewrite (count_foldM p (10 * (2 * m + 31 * n)) _ build_maps) with (s' := rows);
    [change (length build_maps) with 5%nat; lia| |done].
  intros out [name [fmap data_scale]] out' _. unfold eval_map. intros Hm.
  apply value_bind_inv in Hm as (splits & Hsp & Hm). rewrite (trace_bind_Ok _ _ _ Hsp).
  apply value_bind_inv in Hm as ([accs f1s] & Hloop & Hm). rewrite (trace_bind_Ok _ _ _ Hloop).
  apply value_bind_inv in Hm as (am & Ham & Hm). rewrite (trace_bind_Ok _ _ _ Ham).
  apply value_bind_inv in Hm as (sd & Hsd & Hm). rewrite (trace_bind_Ok _ _ _ Hsd).
  apply value_bind_inv in Hm as (fm & Hfm & Hm). rewrite (trace_bind_Ok _ _ _ Hfm).
  rewrite !trace_lift. cbn [app trace mret M_ret ret fst]. rewrite app_nil_r.
  rewrite value_lift in Hsp.
  rewrite (count_foldM p (2 * m + 31 * n) _ splits) with (s' := (accs, f1s));
    [by rewrite (Hsss _ _ _ Hsp)| |done].
  intros [accs0 f1s0] sp st' _. unfold eval_split. intros Hs.
  apply value_bind_inv in Hs as ([a f] & Hscore & _).
  rewrite (trace_bind_Ok _ _ _ Hscore). cbn [trace mret M_ret ret fst]. rewrite app_nil_r.
  by eapply count_score_split.
Qed.

End Cost.

Section QuantumRun.
Context `{L : Libs}.

(** X4: the cost of a complete quantum evaluation.  When each splitter yields
    the ten pairs it is asked for and [eval_qsvm] returns, the run has
    evaluated the kernel exactly 100 times (twice for each of the 10 splits
    of the 5 feature maps) and has fitted a classifier, and predicted with it,
    exactly 1550 times (3 candidates times 10 folds, plus the final model, in
    each of the 50 splits). *)
Theorem eval_qsvm_cost X y :
  (∀ Xs yy sp, StratifiedShuffleSplit_split 10 (3 # 10) SEED Xs yy = Ok sp → length sp = 10%nat) →
  (∀ K yy fs, StratifiedKFold_split 10 true SEED K yy = Ok fs → length fs = 10%nat) →
  is_Ok (value (eval_qsvm X y)) = true →
  count is_kernel (trace (eval_qsvm X y)) = 100%nat
  ∧ count is_fit (trace (eval_qsvm X y)) = 1550%nat
  ∧ count is_predict (trace (eval_qsvm X y)) = 1550%nat.
Proof.
  intros Hsss Hskf Hok. apply is_Ok_true in Hok as [rows Hrows].
  split; [|split].
  - by rewrite (count_eval_qsvm is_kernel 0 1) with (rows := rows).
  - by rewrite (count_eval_qsvm is_fit 1 0) with (rows := rows).
  - by rewrite (count_eval_qsvm is_predict 1 0) with (rows := rows).
Qed.

(** X5: a split whose indices do not all address a sample stops the
    evaluation of that split with IndexError before the kernel is evaluated
    or any classifier is fitted. *)
Theorem score_split_out_of_range fmap data_scale Xs y tr ts :
  Exists (λ i, length Xs ≤ i)%nat (tr ++ ts) →
  score_split fmap data_scale Xs y (tr, ts) = ([], Raise IndexError).
Proof.
  intros Hex. apply Exists_app in Hex. unfold score_split.
  destruct (index_rows Xs tr) as [Xtr_raw|e] eqn:Htr.
  - destruct Hex as [Hex|Hex].
    { rewrite (index_rows_out_of_range _ _ Hex) in Htr. discriminate. }
    by rewrite (index_rows_out_of_range _ _ Hex).
  - by rewrite (index_rows_raises _ _ _ Htr).
Qed.

End QuantumRun.

(** ** A failure anywhere is a failure of the whole evaluation *)

Section AllOrNothing.
Context `{L : Libs}.

Lemma eval_map_scored Xs y splits out entry out' :
  StratifiedShuffleSplit_split 10 (3 # 10) SEED Xs y = Ok splits →
  value (eval_map Xs y out entry) = Ok out' →
  quantum_map_ok Xs y splits entry = true.
Proof.
  destruct entry as [name [fmap data_scale]]. intros Hsplits Hv.
  unfold eval_map in Hv. rewrite (value_bind_Ok _ _ splits) in Hv by done.
  apply value_bind_inv in Hv as (st & Hloop & _).
  unfold quantum_map_ok. apply forallb_forall. intros sp Hin.
  destruct (foldM_value_inv _ _ _ _ Hloop sp Hin) as ([accs f1s] & s2 & Hstep).
  unfold eval_split in Hstep. apply value_bind_inv in Hstep as (r & -> & _). done.
Qed.

(** X6: once the scaler and the splitter have returned (with at least one
    split), [eval_qsvm] returns a table exactly when every split of every
    feature map is scored; one split that fails, of any feature map, makes the
    whole evaluation raise, with no partial table. *)
Theorem eval_qsvm_all_or_nothing X y Xs splits :
  MinMaxScaler_fit_transform X = Ok Xs →
  StratifiedShuffleSplit_split 10 (3 # 10) SEED Xs y = Ok splits →
  splits ≠ [] →
  is_Ok (value (eval_qsvm X y)) = forallb (quantum_map_ok Xs y splits) build_maps.
Proof.
  intros HXs Hsplits Hne. unfold eval_qsvm. rewrite (value_bind_Ok _ _ Xs) by done.
  destruct (forallb (quantum_map_ok Xs y splits) build_maps) eqn:Hall.
  - rewrite forallb_forall in Hall.
    destruct (foldM_value_snoc
                (λ entry row, qrow_ok Xs y splits entry row ∧ qrow_bounds row)
                (λ out row, out ++ [row]) (eval_map Xs y) build_maps) with (s := @nil qrow)
      as (rows & _ & ->); [|done].
    intros out entry Hin. by apply eval_map_row, Hall.
  - destruct (value (foldM (eval_map Xs y) build_maps [])) as [rows|e] eqn:Hv; [|done].
    exfalso. apply Bool.not_true_iff_false in Hall. apply Hall, forallb_forall.
    intros entry Hin. destruct (foldM_value_inv _ _ _ _ Hv entry Hin) as (s1 & s2 & Hstep).
    by eapply eval_map_scored.
Qed.

Lemma eval_classical_split_scored Xs y rows it rows' :
  value (eval_classical_split Xs y rows it) = Ok rows' →
  classical_split_ok Xs y it = true.
Proof.
  destruct it as [split [tr ts]]. unfold eval_classical_split, classical_split_ok. intros Hv.
  apply value_bind_inv in Hv as (Xtr & H1 & Hv).
  apply value_bind_inv in Hv as (Xts & H2 & Hv).
  apply value_bind_inv in Hv as (ytr & H3 & Hv).
  apply value_bind_inv in Hv as (yts & H4 & Hv).
  cbn [value lift snd] in H1, H2, H3, H4. rewrite H1, H2, H3, H4.
  apply forallb_forall. intros entry Hin.
  destruct (foldM_value_inv _ _ _ _ Hv entry Hin) as (s1 & s2 & Hstep).
  unfold eval_classical_model in Hstep. apply value_bind_inv in Hstep as (row & -> & _). done.
Qed.

(** X7: once the scaler and the splitter have returned, [eval_classical]
    returns a table exactly when, on every split, the indexing and every
    model's search, prediction and scoring succeed; and then the table has
    four rows for each split the splitter yielded. *)
Theorem eval_classical_all_or_nothing X y Xs splits :
  StandardScaler_fit_transform X = Ok Xs →
  StratifiedShuffleSplit_split 3 (3 # 10) SEED Xs y = Ok splits →
  is_Ok (value (eval_classical X y)) = forallb (classical_split_ok Xs y) (enumerate 1 splits)
  ∧ ∀ rows, value (eval_classical X y) = Ok rows → length rows = (4 * length splits)%nat.
Proof.
  intros HXs Hsplits. unfold eval_classical.
  rewrite (value_bind_Ok _ _ Xs), (value_bind_Ok _ _ splits) by done.
  destruct (forallb (classical_split_ok Xs y) (enumerate 1 splits)) eqn:Hall.
  - rewrite forallb_forall in Hall.
    destruct (foldM_value_snoc
                (λ it rows_it, Forall2 (crow_ok (fst it)) classical_grids rows_it)
                (λ rows rows_it, rows ++ rows_it)
                (eval_classical_split Xs y) (enumerate 1 splits)) with (s := @nil crow)
      as (bss & HF & Hv).
    { intros s it Hin. by apply eval_classical_split_rows, Hall. }
    rewrite Hv. split; [done|]. intros rows [= <-].
    rewrite fold_left_app_concat. cbn [app].
    assert (length (enumerate 1 splits) = length splits) as <-.
    { unfold enumerate. rewrite length_combine, length_seq. lia. }
    clear -HF. induction HF as [|it b its bs Hb _ IH]; [done|].
    cbn [concat length]. rewrite length_app, IH.
    apply Forall2_length in Hb. rewrite <- Hb.
    change (length classical_grids) with 4%nat. lia.
  - destruct (value (foldM (eval_classical_split Xs y) (enumerate 1 splits) [])) as [rows|e] eqn:Hv.
    2:{ split; [done|]. intros rows [=]. }
    exfalso. apply Bool.not_true_iff_false in Hall. apply Hall, forallb_forall.
    intros it Hin. destruct (foldM_value_inv _ _ _ _ Hv it Hin) as (s1 & s2 & Hstep).
    by eapply eval_classical_split_scored.
Qed.

End AllOrNothing.

(** ** The entangling chain *)

Lemma linear_chain_in_range n :
  Forall (λ g, ∃ i, g = CXgate i (i + 1) ∧ (i + 1 < n)%nat) (linear_chain n).
Proof.
  unfold linear_chain. apply List.Forall_forall. intros g Hg.
  apply in_map_iff in Hg as (i & <- & Hi). apply in_seq in Hi.
  exists i. split; [done|lia].
Qed.

(** X9: [add_linear_entanglement] on a circuit of the store replaces that
    circuit by itself followed by the chain and touches nothing else: the
    number of qubits and the gates already there are kept, exactly
    [num_qubits - 1] gates are added, each a CX from a qubit to the next one
    with both inside the circuit, and a circuit of one qubit or none is left
    as it is. *)
Theorem add_linear_entanglement_frame (circ : ref) (h : store) (c : QuantumCircuit) :
  h !! circ = Some c →
  add_linear_entanglement circ h = (circ, <[circ := entangled c]> h)
  ∧ num_qubits (entangled c) = num_qubits c
  ∧ take (length (data c)) (data (entangled c)) = data c
  ∧ length (drop (length (data c)) (data (entangled c))) = (num_qubits c - 1)%nat
  ∧ Forall (λ g, ∃ i, g = CXgate i (i + 1) ∧ (i + 1 < num_qubits c)%nat)
      (drop (length (data c)) (data (entangled c)))
  ∧ ((num_qubits c ≤ 1)%nat → entangled c = c).
Proof.
  intros Hc. split; [|split; [done|]].
  - unfold add_linear_entanglement, cx.
    rewrite (append_gates_alter circ _ (λ i, CXgate i (i + 1))).
    unfold deref. rewrite Hc. cbn [default]. f_equal.
    apply list_eq. intros r. destruct (decide (r = circ)) as [->|Hne].
    + rewrite list_lookup_alter_eq, Hc, list_lookup_insert_eq; [done|].
      by eapply lookup_lt_Some.
    + by rewrite list_lookup_alter_ne, list_lookup_insert_ne.
  - unfold entangled. cbn [data num_qubits].
    rewrite take_app_length, drop_app_length.
    split; [done|]. split; [unfold linear_chain; by rewrite length_map, length_seq|].
    split; [apply linear_chain_in_range|].
    intros Hle. destruct c as [n d]. cbn [data num_qubits] in *. unfold linear_chain.
    replace (n - 1)%nat with 0%nat by lia. cbn. by rewrite app_nil_r.
Qed.

(** ** The dataset loader *)

Lemma remap_zero_spec y :
  Forall2 (λ l l', (l = 0 ∧ l' = -1) ∨ (l ≠ 0 ∧ l' = l))%Z y (remap_zero y).
Proof.
  induction y as [|l y IH]; [constructor|]. cbn [remap_zero List.map]. constructor; [|done].
  destruct (Z.eqb_spec l 0); [by left|by right].
Qed.

(** X10: [load_dataset] passes the generator's failure on; otherwise it
    returns the generator's two feature matrices unchanged and its two label
    vectors with every 0 replaced by -1 and every other label kept in place,
    so no label 0 is left, and labels drawn from 0 and 1 come out as -1 and
    +1. *)
Theorem load_dataset_labels ad_hoc_data (TRAIN_SIZE TEST_SIZE : nat) :
  match ad_hoc_data TRAIN_SIZE TEST_SIZE FEATURE_DIM (3 # 10) false false with
  | Ok (X_tr, y_tr, X_ts, y_ts) =>
      ∃ y_tr' y_ts',
        load_dataset ad_hoc_data TRAIN_SIZE TEST_SIZE = Ok (X_tr, y_tr', X_ts, y_ts')
        ∧ Forall2 (λ l l', (l = 0 ∧ l' = -1) ∨ (l ≠ 0 ∧ l' = l))%Z y_tr y_tr'
        ∧ Forall2 (λ l l', (l = 0 ∧ l' = -1) ∨ (l ≠ 0 ∧ l' = l))%Z y_ts y_ts'
        ∧ Forall (λ l', l' ≠ 0%Z) (y_tr' ++ y_ts')
        ∧ (Forall (λ l, l = 0 ∨ l = 1)%Z (y_tr ++ y_ts) →
           Forall (λ l', l' = -1 ∨ l' = 1)%Z (y_tr' ++ y_ts'))
  | Raise e => load_dataset ad_hoc_data TRAIN_SIZE TEST_SIZE = Raise e
  end.
Proof.
  unfold load_dataset.
  destruct (ad_hoc_data _ _ _ _ _ _) as [[[[X_tr y_tr] X_ts] y_ts]|e]; [|done].
  exists (remap_zero y_tr), (remap_zero y_ts).
  split; [done|]. split; [apply remap_zero_spec|]. split; [apply remap_zero_spec|].
  unfold remap_zero. rewrite <- map_app. split.
  - apply List.Forall_forall. intros l' Hl. apply in_map_iff in Hl as (l & <- & _).
    destruct (Z.eqb_spec l 0); [done|done].
  - intros Hbin. apply List.Forall_forall. intros l' Hl. apply in_map_iff in Hl as (l & <- & Hin).
    rewrite List.Forall_forall in Hbin. destruct (Hbin l Hin) as [->| ->]; [by left|by right].
Qed.

(** ** Names on the path of the entry point *)

(** X11: X_raw and y_raw are the only names missing on the path the entry
    point runs.  With both bound beforehand the script runs through without a
    NameError, entering [eval_classical] and then [eval_qsvm]; every global
    name read by the body of a function other than [load_dataset] is bound
    once the definitions have run; and a call of [load_dataset] at that point
    stops with NameError on ad_hoc_data. *)
Theorem only_X_raw_and_y_raw_missing :
  snd (Script.exec_all Script.script with_data) = Ok tt
  ∧ Script.log (fst (Script.exec_all Script.script with_data)) =
      [ Script.Extern "StatevectorSampler"; Script.Extern "ComputeUncompute";
        Script.Extern "print"; Script.Enter "eval_classical"; Script.Extern "print";
        Script.Extern "print"; Script.Enter "eval_qsvm"; Script.Extern "print";
        Script.Extern "print" ]
  ∧ Forall (λ fb, fst fb = "load_dataset"
                  ∨ Forall (λ x, Script.bound after_definitions x = true) (snd fb))
      defined_functions
  ∧ List.map fst defined_functions =
      ["load_dataset"; "classical_grids"; "eval_classical"; "add_linear_entanglement";
       "build_maps"; "eval_qsvm"]
  ∧ snd (Script.eval (Script.Call (Script.Name "load_dataset") []) after_definitions) =
      Raise (NameError "ad_hoc_data").
Proof.
  split; [by vm_compute|]. split; [by vm_compute|]. split; [|split; [by vm_compute|]].
  - unfold defined_functions. cbn.
    repeat constructor; first [by left | right; repeat constructor; by vm_compute].
  - by vm_compute.
Qed.

(** ** The theorems at work on the small instance *)

Section Instances.
Import Toy.



(** 21 training points under the opposite kernel: every fold of every
    candidate is predicted wrongly, nothing is selected, and the final
    classifier is fitted with C = None. *)
Lemma no_candidate_selected_toy :
  value (select_C (anti_gram (X 21)) (y 21)) = Ok (None, 0)
  ∧ value (fit_and_score (anti_gram (X 21)) (gram (X 9) (X 21)) (y 21) (y 9)) =
      Raise (LibraryError "InvalidParameterError")
  ∧ ∃ after,
      trace (fit_and_score (anti_gram (X 21)) (gram (X 9) (X 21)) (y 21) (y 9)) =
      trace (select_C (anti_gram (X 21)) (y 21))
      ++ EvFit (anti_gram (X 21)) (y 21) None :: after.
Proof.
  split; [|split; [by vm_compute|]];
    apply (no_candidate_selected (anti_gram (X 21)) (y 21) (gram (X 9) (X 21)) (y 9));
    intros C HC; simpl in HC;
  destruct HC as [<-|[<-|[<-|[]]]]; eexists; (split; [unfold mean_acc; vm_compute; reflexivity|]);
    vm_compute; discriminate.
Defined.

(** The toy dataset of 8 samples, 2 classes. *)
Lemma eval_classical_rows_toy :
  ∃ rows,
    value (eval_classical (X 8) (y 8)) = Ok rows
    ∧ length rows = 12%nat
    ∧ List.map (λ r, (c_split r, c_model r)) rows =
        list_prod [1; 2; 3]%nat ["LogReg"; "SVM-linear"; "SVM-poly"; "SVM-rbf"]
    ∧ Forall (λ r, 0 <= c_acc r <= 1 ∧ 0 <= c_f1 r <= 1) rows.
Proof.
  apply (eval_classical_rows (X 8) (y 8) (X 8) (shuffle_split 3 (3 # 10) 8));
    vm_compute; reflexivity.
Defined.

Lemma eval_qsvm_rows_toy :
  ∃ rows,
    value (eval_qsvm (X 30) (y 30)) = Ok rows
    ∧ length rows = 5%nat
    ∧ List.map q_map rows =
        ["ZF-reps1"; "ZF-reps2"; "ZF-alpha05"; "ZF-LinEnt"; "ZF-alpha05-LinEnt"]
    ∧ Forall2 (qrow_ok (X 30) (y 30) (shuffle_split 10 (3 # 10) 30)) build_maps rows
    ∧ Forall qrow_bounds rows.
Proof.
  apply (eval_qsvm_rows (X 30) (y 30) (X 30) (shuffle_split 10 (3 # 10) 30));
    vm_compute; reflexivity.
Defined.

Lemma kernel_once_then_sliced_toy :
  ∃ Xtr_raw Xts_raw ytr Ktr Kts folds rest bestC maxAcc,
    index_rows (X 30) (seq 9 21) = Ok Xtr_raw
    ∧ index_rows (X 30) (seq 0 9) = Ok Xts_raw
    ∧ index_rows (y 30) (seq 9 21) = Ok ytr
    ∧ qk_evaluate (ZFeatureMap 4 1) (scale_matrix Xtr_raw (1 # 2)) None = Ok Ktr
    ∧ qk_evaluate (ZFeatureMap 4 1) (scale_matrix Xts_raw (1 # 2))
        (Some (scale_matrix Xtr_raw (1 # 2))) = Ok Kts
    ∧ StratifiedKFold_split 10 true SEED Ktr ytr = Ok folds
    ∧ trace (score_split (ZFeatureMap 4 1) (1 # 2) (X 30) (y 30) (seq 9 21, seq 0 9)) =
        EvKernel (ZFeatureMap 4 1) (scale_matrix Xtr_raw (1 # 2)) None
        :: EvKernel (ZFeatureMap 4 1) (scale_matrix Xts_raw (1 # 2))
             (Some (scale_matrix Xtr_raw (1 # 2)))
        :: rest
    ∧ Forall (sliced Ktr Kts ytr folds) rest
    ∧ List.filter is_kernel rest = []
    ∧ value (select_C Ktr ytr) = Ok (bestC, maxAcc)
    ∧ rest = cv_events Ktr ytr folds ++ [EvFit Ktr ytr bestC; EvPredict Kts]
    ∧ forallb (fold_sliceable Ktr ytr) folds = true
    ∧ folds ≠ [].
Proof.
  apply (kernel_once_then_sliced (ZFeatureMap 4 1) (1 # 2) (X 30) (y 30) (seq 9 21) (seq 0 9)
           (9 # 9, 10 # 10)).
  vm_compute. reflexivity.
Defined.

Lemma main_saves_once_toy :
  ∃ before df_c df_q w,
    value (eval_classical (X 30) (y 30)) = Ok df_c
    ∧ value (eval_qsvm (X 30) (y 30)) = Ok df_q
    ∧ trace (main (X 30) (y 30)) =
        before ++ [EvSave xlsx_path w; EvPrint (PStr "
 Resultados guardados en Resultados_IrisLineal_QBoost.xlsx")]
    ∧ List.filter is_save before = []
    ∧ w = [("Clasicos", SheetC df_c); ("Cuanticos", SheetQ df_q)]
    ∧ sheet_names w = ["Clasicos"; "Cuanticos"]
    ∧ length (List.filter is_save (trace (main (X 30) (y 30)))) = 1%nat.
Proof. apply (main_saves_once (X 30) (y 30)). vm_compute. reflexivity. Defined.

(** C4 as stated fails: a complete run on 30 points, with 12 classical and 5
    quantum rows, saves a workbook whose sheets are not called Classical
    Results and Quantum Results. *)
Lemma sheet_names_are_not_english :
  value (main (X 30) (y 30)) = Ok tt
  ∧ match value (eval_classical (X 30) (y 30)) with Ok df_c => length df_c | Raise _ => 0%nat end
    = 12%nat
  ∧ match value (eval_qsvm (X 30) (y 30)) with Ok df_q => length df_q | Raise _ => 0%nat end
    = 5%nat
  ∧ List.map sheet_names (saved_sheets (trace (main (X 30) (y 30)))) =
      [["Clasicos"; "Cuanticos"]]
  ∧ List.map sheet_names (saved_sheets (trace (main (X 30) (y 30)))) ≠
      [["Classical Results"; "Quantum Results"]].
Proof.
  assert (List.map sheet_names (saved_sheets (trace (main (X 30) (y 30)))) =
          [["Clasicos"; "Cuanticos"]]) as Hs by (by vm_compute).
  split; [by vm_compute|]. split; [by vm_compute|]. split; [by vm_compute|].
  split; [done|]. rewrite Hs. discriminate.
Qed.

End Instances.

Section MoreInstances.
Import Toy.

Lemma block_kernel_matrix_toy :
  block (kernel_matrix k (X 6) (X 6)) [0; 2; 4]%nat [1; 3]%nat =
  Ok (kernel_matrix k [point 0; point 2; point 4] [point 1; point 3]).
Proof. apply (block_kernel_matrix k (X 6) (X 6) [0; 2; 4]%nat [1; 3]%nat); reflexivity. Defined.

Lemma split_rows_partition_toy :
  ∃ atr ats,
    index_rows (X 5) [3; 0; 4]%nat = Ok atr ∧ index_rows (X 5) [1; 2]%nat = Ok ats
    ∧ atr ++ ats ≡ₚ X 5
    ∧ length atr = 3%nat ∧ length ats = 2%nat.
Proof.
  apply (split_rows_partition (X 5) [3; 0; 4]%nat [1; 2]%nat).
  apply (bool_decide_unpack _). vm_compute. reflexivity.
Defined.

Lemma eval_qsvm_cost_toy :
  count is_kernel (trace (eval_qsvm (X 30) (y 30))) = 100%nat
  ∧ count is_fit (trace (eval_qsvm (X 30) (y 30))) = 1550%nat
  ∧ count is_predict (trace (eval_qsvm (X 30) (y 30))) = 1550%nat.
Proof.
  apply (eval_qsvm_cost (X 30) (y 30)).
  - intros Xs yy sp [= <-]. unfold shuffle_split. by rewrite length_map, length_seq.
  - intros K yy fs [= <-]. unfold kfold. by rewrite length_map, length_seq.
  - vm_compute. reflexivity.
Defined.

Lemma score_split_out_of_range_toy :
  score_split (ZFeatureMap 4 1) 1 (X 8) (y 8) ([0; 1; 8]%nat, [2]%nat) = ([], Raise IndexError).
Proof.
  apply (score_split_out_of_range (ZFeatureMap 4 1) 1 (X 8) (y 8) [0; 1; 8]%nat [2]%nat).
  apply List.Exists_exists. exists 8%nat. split; [simpl; tauto|]. vm_compute. lia.
Defined.

Lemma eval_qsvm_all_or_nothing_toy :
  is_Ok (value (eval_qsvm (X 30) (y 30))) =
  forallb (quantum_map_ok (X 30) (y 30) (shuffle_split 10 (3 # 10) 30)) build_maps.
Proof.
  apply (eval_qsvm_all_or_nothing (X 30) (y 30) (X 30) (shuffle_split 10 (3 # 10) 30));
    [reflexivity|reflexivity|by vm_compute].
Defined.

Lemma eval_classical_all_or_nothing_toy :
  is_Ok (value (eval_classical (X 8) (y 8))) =
    forallb (classical_split_ok (X 8) (y 8)) (enumerate 1 (shuffle_split 3 (3 # 10) 8))
  ∧ ∀ rows, value (eval_classical (X 8) (y 8)) = Ok rows →
            length rows = (4 * length (shuffle_split 3 (3 # 10) 8))%nat.
Proof.
  apply (eval_classical_all_or_nothing (X 8) (y 8) (X 8) (shuffle_split 3 (3 # 10) 8));
    reflexivity.
Defined.

Lemma add_linear_entanglement_frame_toy :
  add_linear_entanglement 1 [ZFeatureMap 4 1; ZFeatureMap 3 1] =
    (1%nat, <[1%nat := entangled (ZFeatureMap 3 1)]> [ZFeatureMap 4 1; ZFeatureMap 3 1])
  ∧ num_qubits (entangled (ZFeatureMap 3 1)) = 3%nat
  ∧ take (length (data (ZFeatureMap 3 1))) (data (entangled (ZFeatureMap 3 1))) =
      data (ZFeatureMap 3 1)
  ∧ length (drop (length (data (ZFeatureMap 3 1))) (data (entangled (ZFeatureMap 3 1)))) = 2%nat
  ∧ Forall (λ g, ∃ i, g = CXgate i (i + 1) ∧ (i + 1 < 3)%nat)
      (drop (length (data (ZFeatureMap 3 1))) (data (entangled (ZFeatureMap 3 1))))
  ∧ ((3 ≤ 1)%nat → entangled (ZFeatureMap 3 1) = ZFeatureMap 3 1).
Proof.
  apply (add_linear_entanglement_frame 1 [ZFeatureMap 4 1; ZFeatureMap 3 1] (ZFeatureMap 3 1)).
  reflexivity.
Defined.

End MoreInstances.
